(** * Turtle's Adventure: a shallow embedding of [turtle_adventure.py]

    The development follows the source class by class.  Python numbers that
    may be floats (positions, speeds) are embedded as real numbers, so the
    arithmetic of the model is the exact arithmetic the program approximates;
    Python [int]s that stay integers (sizes, the patrol counters, random
    draws, screen dimensions, milliseconds) are embedded as [Z].

    Objects are mutable and shared in the source.  The enemies live in a heap
    ([heap], indexed by reference), the element container and the enemy list
    hold references, and the single waypoint, home and player are fields of
    the game, exactly as [game.waypoint], [game.home] and [game.player]. *)

From Stdlib Require Import Reals Lra Zfloor ZArith Lia List Bool String.
Import ListNotations.

Open Scope R_scope.

(** ** Comparisons on numbers, as booleans *)

Definition Rltb (a b : R) : bool := if Rlt_dec a b then true else false.
Definition Rleb (a b : R) : bool := if Rle_dec a b then true else false.
Definition Rgeb (a b : R) : bool := Rleb b a.
Definition Rgtb (a b : R) : bool := Rltb b a.
Definition Req_b (a b : R) : bool := if Req_dec_T a b then true else false.

(** ** The classes' data *)

(** [Waypoint]: position and the private flag [__active]. *)
Record Waypoint := mkWaypoint {
  wp_x : R;
  wp_y : R;
  wp_active : bool
}.

(** [Home]: position and [__size]. *)
Record Home := mkHome {
  home_x : R;
  home_y : R;
  home_size : Z
}.

(** The part of Python's [turtle.RawTurtle] that [Player] uses: the position
    and the orientation.  A heading is kept as the unit vector
    [(cos h, sin h)] the turtle itself stores in [_orient]. *)
Record RawTurtle := mkTurtle {
  xcor : R;
  ycor : R;
  orient : R * R
}.

(** [Player]: the turtle it delegates its position to, and [__speed]. *)
Record Player := mkPlayer {
  p_turtle : RawTurtle;
  p_speed : R
}.

(** [Enemy]: the attributes every enemy has. *)
Record Enemy := mkEnemy {
  en_x : R;
  en_y : R;
  en_size : Z;
  en_color : string
}.

(** A reference to an enemy object: its index in the heap. *)
Definition EnemyRef := nat.

Record ShakingEnemy := mkShaking {
  shaking_base :> Enemy;
  shaking_speed : R
}.

Record PursuitEnemy := mkPursuit {
  pursuit_base :> Enemy;
  pursuit_speed : R
}.

Record AroundHomeEnemy := mkAroundHome {
  around_base :> Enemy;
  move_x : Z;
  move_y : Z;
  moving_x : bool;
  moving_y : bool;
  move_left : bool;
  move_up : bool
}.

Record SummonEnemy := mkSummon {
  summon_base :> Enemy;
  summon_speed : R
}.

Record DiagonalMinionEnemy := mkDiagonal {
  diagonal_base :> Enemy;
  diagonal_speed : R;
  diagonal_summoner : EnemyRef;
  choosing1 : string;
  choosing2 : string
}.

Record StraightMinionEnemy := mkStraight {
  straight_base :> Enemy;
  straight_speed : R;
  straight_summoner : EnemyRef;
  choosing : string
}.

(** An enemy object with its dynamic class. *)
Inductive EnemyObj :=
| OShaking (e : ShakingEnemy)
| OPursuit (e : PursuitEnemy)
| OAroundHome (e : AroundHomeEnemy)
| OSummon (e : SummonEnemy)
| ODiagonal (e : DiagonalMinionEnemy)
| OStraight (e : StraightMinionEnemy).

Definition enemy_of (o : EnemyObj) : Enemy :=
  match o with
  | OShaking e => e
  | OPursuit e => e
  | OAroundHome e => e
  | OSummon e => e
  | ODiagonal e => e
  | OStraight e => e
  end.

(** Attribute assignment [self.x = v], [self.y = v]. *)
Definition Enemy_set_x (e : Enemy) (v : R) : Enemy :=
  mkEnemy v (en_y e) (en_size e) (en_color e).
Definition Enemy_set_y (e : Enemy) (v : R) : Enemy :=
  mkEnemy (en_x e) v (en_size e) (en_color e).

Definition map_base (f : Enemy -> Enemy) (o : EnemyObj) : EnemyObj :=
  match o with
  | OShaking e => OShaking (mkShaking (f e) (shaking_speed e))
  | OPursuit e => OPursuit (mkPursuit (f e) (pursuit_speed e))
  | OAroundHome e =>
      OAroundHome (mkAroundHome (f e) (move_x e) (move_y e) (moving_x e)
                     (moving_y e) (move_left e) (move_up e))
  | OSummon e => OSummon (mkSummon (f e) (summon_speed e))
  | ODiagonal e =>
      ODiagonal (mkDiagonal (f e) (diagonal_speed e) (diagonal_summoner e)
                   (choosing1 e) (choosing2 e))
  | OStraight e =>
      OStraight (mkStraight (f e) (straight_speed e) (straight_summoner e)
                   (choosing e))
  end.

(** What the element container holds: references to the game's objects. *)
Inductive ElementRef :=
| RWaypoint
| RHome
| RPlayer
| REnemy (r : EnemyRef).

(** A callback handed to the timer service. *)
Inductive Callback :=
| CreateEnemy.

(** [TurtleAdventureGame], with the state it inherits from [gamelib.Game]:
    the element container, the running flag, the texts drawn on the canvas
    and the timers waiting in the event loop. *)
Record TurtleAdventureGame := mkGame {
  level : Z;
  screen_width : Z;
  screen_height : Z;
  waypoint : Waypoint;
  player : Player;
  home : Home;
  enemies : list EnemyRef;
  generator_level : Z;
  (* gamelib.Game *)
  heap : list EnemyObj;
  elements : list ElementRef;
  is_running : bool;
  canvas_texts : list string;
  now : Z;
  timers : list (Z * Callback)
}.

(** Field assignments on the game. *)
Definition set_waypoint (g : TurtleAdventureGame) (w : Waypoint) :=
  mkGame (level g) (screen_width g) (screen_height g) w (player g) (home g)
    (enemies g) (generator_level g) (heap g) (elements g) (is_running g)
    (canvas_texts g) (now g) (timers g).
Definition set_player (g : TurtleAdventureGame) (p : Player) :=
  mkGame (level g) (screen_width g) (screen_height g) (waypoint g) p (home g)
    (enemies g) (generator_level g) (heap g) (elements g) (is_running g)
    (canvas_texts g) (now g) (timers g).
Definition set_home (g : TurtleAdventureGame) (h : Home) :=
  mkGame (level g) (screen_width g) (screen_height g) (waypoint g) (player g)
    h (enemies g) (generator_level g) (heap g) (elements g) (is_running g)
    (canvas_texts g) (now g) (timers g).
Definition set_enemies (g : TurtleAdventureGame) (l : list EnemyRef) :=
  mkGame (level g) (screen_width g) (screen_height g) (waypoint g) (player g)
    (home g) l (generator_level g) (heap g) (elements g) (is_running g)
    (canvas_texts g) (now g) (timers g).
Definition set_generator_level (g : TurtleAdventureGame) (l : Z) :=
  mkGame (level g) (screen_width g) (screen_height g) (waypoint g) (player g)
    (home g) (enemies g) l (heap g) (elements g) (is_running g)
    (canvas_texts g) (now g) (timers g).
Definition set_heap (g : TurtleAdventureGame) (h : list EnemyObj) :=
  mkGame (level g) (screen_width g) (screen_height g) (waypoint g) (player g)
    (home g) (enemies g) (generator_level g) h (elements g) (is_running g)
    (canvas_texts g) (now g) (timers g).
Definition set_elements (g : TurtleAdventureGame) (l : list ElementRef) :=
  mkGame (level g) (screen_width g) (screen_height g) (waypoint g) (player g)
    (home g) (enemies g) (generator_level g) (heap g) l (is_running g)
    (canvas_texts g) (now g) (timers g).
Definition set_is_running (g : TurtleAdventureGame) (b : bool) :=
  mkGame (level g) (screen_width g) (screen_height g) (waypoint g) (player g)
    (home g) (enemies g) (generator_level g) (heap g) (elements g) b
    (canvas_texts g) (now g) (timers g).
Definition set_canvas_texts (g : TurtleAdventureGame) (l : list string) :=
  mkGame (level g) (screen_width g) (screen_height g) (waypoint g) (player g)
    (home g) (enemies g) (generator_level g) (heap g) (elements g)
    (is_running g) l (now g) (timers g).
Definition set_now (g : TurtleAdventureGame) (t : Z) :=
  mkGame (level g) (screen_width g) (screen_height g) (waypoint g) (player g)
    (home g) (enemies g) (generator_level g) (heap g) (elements g)
    (is_running g) (canvas_texts g) t (timers g).
Definition set_timers (g : TurtleAdventureGame) (l : list (Z * Callback)) :=
  mkGame (level g) (screen_width g) (screen_height g) (waypoint g) (player g)
    (home g) (enemies g) (generator_level g) (heap g) (elements g)
    (is_running g) (canvas_texts g) (now g) l.

(** ** The host: [gamelib.Game], the canvas and the timer service *)

(** Modelled from the spec: [gamelib.Game.add_element], the container's
    [registerEntity(e)].  The entity goes to the end of the container, which
    is stepped in insertion order; the shape it draws on creation is not part
    of the model. *)
Definition add_element (g : TurtleAdventureGame) (e : ElementRef) :=
  set_elements g (elements g ++ [e]).

(** Modelled from the spec: [gamelib.Game.stop], which halts the per-frame
    update/render cycle. *)
Definition stop (g : TurtleAdventureGame) := set_is_running g false.

(** Modelled from the spec: [gamelib.Game.start], which begins the cycle. *)
Definition start (g : TurtleAdventureGame) := set_is_running g true.

(** [canvas.create_text(..., text=t, ...)]: one more text on the canvas. *)
Definition create_text (g : TurtleAdventureGame) (t : string) :=
  set_canvas_texts g (canvas_texts g ++ [t]).

(** Modelled from the spec: the timer service's [scheduleOnce(delayMs,
    callback)], tkinter's [after].  The callback becomes due [ms]
    milliseconds after the present instant. *)
Definition after (g : TurtleAdventureGame) (ms : Z) (cb : Callback) :=
  set_timers g (timers g ++ [((now g + ms)%Z, cb)]).

(** ** Waypoint *)

Definition Waypoint_activate (self : Waypoint) (x y : R) : Waypoint :=
  mkWaypoint x y true.

Definition Waypoint_deactivate (self : Waypoint) : Waypoint :=
  mkWaypoint (wp_x self) (wp_y self) false.

Definition Waypoint_is_active (self : Waypoint) : bool := wp_active self.

(** ** Home *)

Definition Home_contains (self : Home) (x y : R) : bool :=
  let x1 := home_x self - IZR (home_size self) / 2 in
  let x2 := home_x self + IZR (home_size self) / 2 in
  let y1 := home_y self - IZR (home_size self) / 2 in
  let y2 := home_y self + IZR (home_size self) / 2 in
  (Rleb x1 x && Rleb x x2) && (Rleb y1 y && Rleb y y2).

(** ** The turtle

    [distance] is the Euclidean distance to the point.  [towards] is the
    heading of the vector from the turtle to the point; Python computes it
    with [atan2], which gives heading 0 for the null vector.  [setheading]
    turns the turtle, [forward] moves it along its orientation. *)

Definition RawTurtle_distance (t : RawTurtle) (x y : R) : R :=
  sqrt ((x - xcor t) * (x - xcor t) + (y - ycor t) * (y - ycor t)).

Definition RawTurtle_towards (t : RawTurtle) (x y : R) : R * R :=
  let d := RawTurtle_distance t x y in
  if Req_b d 0 then (1, 0) else ((x - xcor t) / d, (y - ycor t) / d).

Definition RawTurtle_setheading (t : RawTurtle) (h : R * R) : RawTurtle :=
  mkTurtle (xcor t) (ycor t) h.

Definition RawTurtle_forward (t : RawTurtle) (d : R) : RawTurtle :=
  mkTurtle (xcor t + d * fst (orient t)) (ycor t + d * snd (orient t))
    (orient t).

Definition RawTurtle_setx (t : RawTurtle) (v : R) : RawTurtle :=
  mkTurtle v (ycor t) (orient t).
Definition RawTurtle_sety (t : RawTurtle) (v : R) : RawTurtle :=
  mkTurtle (xcor t) v (orient t).

(** ** The session's terminal transitions *)

Definition game_over_win (self : TurtleAdventureGame) : TurtleAdventureGame :=
  create_text (stop self) "You Win".

Definition game_over_lose (self : TurtleAdventureGame) : TurtleAdventureGame :=
  create_text (stop self) "You Lose".

Definition add_enemy (self : TurtleAdventureGame) (enemy : EnemyRef) :=
  add_element (set_enemies self (enemies self ++ [enemy])) (REnemy enemy).

(** ** Player *)

Definition Player_x (self : Player) : R := xcor (p_turtle self).
Definition Player_y (self : Player) : R := ycor (p_turtle self).
Definition Player_set_x (self : Player) (v : R) : Player :=
  mkPlayer (RawTurtle_setx (p_turtle self) v) (p_speed self).
Definition Player_set_y (self : Player) (v : R) : Player :=
  mkPlayer (RawTurtle_sety (p_turtle self) v) (p_speed self).

(** [Player.update], with [self = game.player]. *)
Definition Player_update (game : TurtleAdventureGame) : TurtleAdventureGame :=
  let self := player game in
  let game :=
    if Home_contains (home game) (Player_x self) (Player_y self)
    then game_over_win game else game in
  let turtle := p_turtle self in
  let waypoint := waypoint game in
  if Waypoint_is_active waypoint then
    let turtle :=
      RawTurtle_setheading turtle
        (RawTurtle_towards turtle (wp_x waypoint) (wp_y waypoint)) in
    let turtle := RawTurtle_forward turtle (p_speed self) in
    let game := set_player game (mkPlayer turtle (p_speed self)) in
    if Rltb (RawTurtle_distance turtle (wp_x waypoint) (wp_y waypoint))
         (p_speed self)
    then set_waypoint game (Waypoint_deactivate waypoint)
    else game
  else game.

(** ** Enemy *)

Definition hits_player (self : Enemy) (game : TurtleAdventureGame) : bool :=
  (Rltb (en_x self - IZR (en_size self) / 2) (Player_x (player game))
   && Rltb (Player_x (player game)) (en_x self + IZR (en_size self) / 2))
  &&
  (Rltb (en_y self - IZR (en_size self) / 2) (Player_y (player game))
   && Rltb (Player_y (player game)) (en_y self + IZR (en_size self) / 2)).

(** The last step of most updates: lose when the enemy hits the player. *)
Definition check_hit (self : Enemy) (game : TurtleAdventureGame) :=
  if hits_player self game then game_over_lose game else game.

(** ** PursuitEnemy

    The position of an element that has not been assigned one comes from
    [gamelib.GameElement], which the source does not contain; it is taken to
    be (0, 0).  [create_enemy] assigns every enemy's position before it
    registers the enemy. *)

Definition PursuitEnemy_init (size : Z) (color : string) : PursuitEnemy :=
  mkPursuit (mkEnemy 0 0 size color) 1.

Definition PursuitEnemy_update (self : PursuitEnemy)
    (game : TurtleAdventureGame) : PursuitEnemy * TurtleAdventureGame :=
  let speed := pursuit_speed self + 1 / 100 in
  let x :=
    if Rgtb (en_x self) (Player_x (player game))
    then en_x self - IZR (Zfloor speed)
    else if Req_b (en_x self) (Player_x (player game))
    then en_x self
    else en_x self + IZR (Zfloor speed) in
  let y :=
    if Rgtb (en_y self) (Player_y (player game))
    then en_y self - IZR (Zfloor speed)
    else if Req_b (en_y self) (Player_y (player game))
    then en_y self
    else en_y self + IZR (Zfloor speed) in
  let self := mkPursuit (mkEnemy x y (en_size self) (en_color self)) speed in
  (self, check_hit self game).

(** ** AroundHomeEnemy *)

Definition AroundHomeEnemy_init (game : TurtleAdventureGame) (size : Z)
    (color : string) : AroundHomeEnemy :=
  mkAroundHome
    (mkEnemy (home_x (home game) - 50) (home_y (home game) - 50) size color)
    0 0 true false true true.

Definition AroundHomeEnemy_update (self : AroundHomeEnemy)
    (game : TurtleAdventureGame) : AroundHomeEnemy * TurtleAdventureGame :=
  let self :=
    if moving_x self then
      if Bool.eqb (move_left self) false then
        let x := en_x self + 3 in
        let mx := (move_x self + 3)%Z in
        if (mx >=? 100)%Z then
          mkAroundHome (Enemy_set_x self x) mx (move_y self)
            false true true (move_up self)
        else
          mkAroundHome (Enemy_set_x self x) mx (move_y self)
            (moving_x self) (moving_y self) (move_left self) (move_up self)
      else
        let x := en_x self - 3 in
        let mx := (move_x self - 3)%Z in
        if (mx <=? 0)%Z then
          mkAroundHome (Enemy_set_x self x) mx (move_y self)
            false true false (move_up self)
        else
          mkAroundHome (Enemy_set_x self x) mx (move_y self)
            (moving_x self) (moving_y self) (move_left self) (move_up self)
    else
      if Bool.eqb (move_up self) false then
        let y := en_y self + 3 in
        let my := (move_y self + 3)%Z in
        if (my >=? 100)%Z then
          mkAroundHome (Enemy_set_y self y) (move_x self) my
            true false (move_left self) true
        else
          mkAroundHome (Enemy_set_y self y) (move_x self) my
            (moving_x self) (moving_y self) (move_left self) (move_up self)
      else
        let y := en_y self - 3 in
        let my := (move_y self - 3)%Z in
        if (my <=? 0)%Z then
          mkAroundHome (Enemy_set_y self y) (move_x self) my
            true false (move_left self) false
        else
          mkAroundHome (Enemy_set_y self y) (move_x self) my
            (moving_x self) (moving_y self) (move_left self) (move_up self) in
  (self, check_hit self game).

(** ** SummonEnemy *)

Definition SummonEnemy_init (size : Z) (color : string) : SummonEnemy :=
  mkSummon (mkEnemy 0 0 size color) 1.

Definition SummonEnemy_update (self : SummonEnemy)
    (game : TurtleAdventureGame) : SummonEnemy * TurtleAdventureGame :=
  let x :=
    if Rgeb (en_x self) (Player_x (player game))
    then en_x self - IZR (Zfloor (summon_speed self))
    else if Req_b (en_x self) (Player_x (player game))
    then en_x self
    else en_x self + IZR (Zfloor (summon_speed self)) in
  let y :=
    if Rgeb (en_y self) (Player_y (player game))
    then en_y self - IZR (Zfloor (summon_speed self))
    else if Req_b (en_y self) (Player_y (player game))
    then en_y self
    else en_y self + IZR (Zfloor (summon_speed self)) in
  let self :=
    mkSummon (mkEnemy x y (en_size self) (en_color self)) (summon_speed self) in
  (self, check_hit self game).

(** ** The minions

    Both classes end their update with the same four tests on the position
    reached: one negation of the speed for the x bounds, one for the y
    bounds. *)

Definition bounce (x y speed : R) : R :=
  let speed :=
    if Rgeb x 800 then speed * -1
    else if Rleb x 0 then speed * -1
    else speed in
  if Rgeb y 500 then speed * -1
  else if Rleb y 0 then speed * -1
  else speed.

Definition DiagonalMinionEnemy_update (self : DiagonalMinionEnemy)
    (game : TurtleAdventureGame) : DiagonalMinionEnemy * TurtleAdventureGame :=
  let speed := diagonal_speed self + 4 / 10 in
  let y :=
    if String.eqb (choosing1 self) "Up"
    then en_y self + speed else en_y self - speed in
  let x :=
    if String.eqb (choosing2 self) "Right"
    then en_x self + speed else en_x self - speed in
  let base := mkEnemy x y (en_size self) (en_color self) in
  let game := check_hit base game in
  (mkDiagonal base (bounce x y speed) (diagonal_summoner self)
     (choosing1 self) (choosing2 self),
   game).

Definition StraightMinionEnemy_update (self : StraightMinionEnemy)
    (game : TurtleAdventureGame) : StraightMinionEnemy * TurtleAdventureGame :=
  let speed := straight_speed self + 4 / 10 in
  let base :=
    if String.eqb (choosing self) "Right"
    then Enemy_set_x self (en_x self + IZR (Zfloor speed))
    else if String.eqb (choosing self) "Left"
    then Enemy_set_x self (en_x self - IZR (Zfloor speed))
    else if String.eqb (choosing self) "Up"
    then Enemy_set_y self (en_y self + IZR (Zfloor speed))
    else Enemy_set_y self (en_y self - IZR (Zfloor speed)) in
  let game := check_hit base game in
  (mkStraight base (bounce (en_x base) (en_y base) speed)
     (straight_summoner self) (choosing self),
   game).

(** ** The random module and the world

    A run of the program consumes the values of Python's global generator
    one after the other: [draws] is the sequence the generator delivers,
    [cursor] how many of them have been used. *)

Record RandomState := mkRandom {
  draws : nat -> nat;
  cursor : nat
}.

Record World := mkWorld {
  game : TurtleAdventureGame;
  random : RandomState
}.

(** Computations that read and change the world and may raise. *)
Definition M (A : Type) : Type := World -> option (A * World).

Definition ret {A} (a : A) : M A := fun w => Some (a, w).

Definition bind {A B} (m : M A) (k : A -> M B) : M B :=
  fun w => match m w with
           | Some (a, w') => k a w'
           | None => None
           end.

Definition raise {A} : M A := fun _ => None.

Declare Scope world_scope.
Delimit Scope world_scope with world.
Notation "x <- m ;; k" := (bind m (fun x => k))
  (at level 61, m at next level, right associativity) : world_scope.
Notation "m ;; k" := (bind m (fun _ => k))
  (at level 61, right associativity) : world_scope.
Open Scope world_scope.

Definition get_game : M TurtleAdventureGame := fun w => Some (game w, w).

Definition put_game (g : TurtleAdventureGame) : M unit :=
  fun w => Some (tt, mkWorld g (random w)).

Definition modify_game (f : TurtleAdventureGame -> TurtleAdventureGame)
  : M unit :=
  fun w => Some (tt, mkWorld (f (game w)) (random w)).

(** The next value of the generator. *)
Definition next_draw : M nat :=
  fun w =>
    Some (draws (random w) (cursor (random w)),
          mkWorld (game w)
            (mkRandom (draws (random w)) (S (cursor (random w))))).

(** [random.randint(a, b)]: an integer of [a..b], both ends included; an
    empty range raises [ValueError]. *)
Definition randint (a b : Z) : M Z :=
  if (a <=? b)%Z then
    r <- next_draw ;;
    ret (a + Z.of_nat r mod (b - a + 1))%Z
  else raise.

(** [random.choice(seq)]: an element of the sequence; an empty sequence
    raises [IndexError]. *)
Definition choice {A} (seq : list A) : M A :=
  match seq with
  | [] => raise
  | a :: _ =>
      r <- next_draw ;;
      ret (nth (r mod List.length seq) seq a)
  end.

(** ** Enemy objects in the heap *)

Fixpoint list_update {A} (l : list A) (i : nat) (f : A -> A) : list A :=
  match l, i with
  | [], _ => []
  | a :: l', O => f a :: l'
  | a :: l', S i' => a :: list_update l' i' f
  end.

(** Creating an object: it gets the next free reference. *)
Definition new (o : EnemyObj) : M EnemyRef :=
  g <- get_game ;;
  put_game (set_heap g (heap g ++ [o])) ;;
  ret (List.length (heap g)).

Definition deref (r : EnemyRef) : M EnemyObj :=
  g <- get_game ;;
  match nth_error (heap g) r with
  | Some o => ret o
  | None => raise
  end.

Definition store (r : EnemyRef) (o : EnemyObj) : M unit :=
  modify_game (fun g => set_heap g (list_update (heap g) r (fun _ => o))).

(** [obj.x = v] and [obj.y = v] through a reference. *)
Definition assign_x (r : EnemyRef) (v : R) : M unit :=
  modify_game (fun g =>
    set_heap g (list_update (heap g) r (map_base (fun e => Enemy_set_x e v)))).

Definition assign_y (r : EnemyRef) (v : R) : M unit :=
  modify_game (fun g =>
    set_heap g (list_update (heap g) r (map_base (fun e => Enemy_set_y e v)))).

(** ** ShakingEnemy *)

Definition ShakingEnemy_init (size : Z) (color : string) : ShakingEnemy :=
  mkShaking (mkEnemy 0 0 size color) (25 / 10).

Definition ShakingEnemy_update (self : ShakingEnemy) : M ShakingEnemy :=
  let speed := shaking_speed self + 1 / 100 in
  let x := en_x self in
  let y := en_y self in
  xy <-
    (if Rgeb x 0 && Rleb x 800 then
       if Rgeb y 0 && Rleb y 500 then
         x' <- randint (Zfloor (x - speed)) (Zceil (x + speed)) ;;
         y' <- randint (Zfloor (y - speed)) (Zceil (y + speed)) ;;
         ret (x', y')
       else if Rleb y 0 then
         x' <- randint (Zfloor (x - speed)) (Zceil (x + speed)) ;;
         y' <- randint (Zfloor y) (Zceil (y + speed)) ;;
         ret (x', y')
       else
         x' <- randint (Zfloor (x - speed)) (Zceil (x + speed)) ;;
         y' <- randint (Zfloor (y - speed)) (Zceil y) ;;
         ret (x', y')
     else if Rleb x 0 then
       if Rgeb y 0 && Rleb y 500 then
         x' <- randint (Zfloor x) (Zceil (x + speed)) ;;
         y' <- randint (Zfloor (y - speed)) (Zceil (y + speed)) ;;
         ret (x', y')
       else if Rleb y 0 then
         x' <- randint (Zfloor x) (Zceil (x + speed)) ;;
         y' <- randint (Zfloor y) (Zceil (y + speed)) ;;
         ret (x', y')
       else
         x' <- randint (Zfloor x) (Zceil (x + speed)) ;;
         y' <- randint (Zfloor (y - speed)) (Zceil y) ;;
         ret (x', y')
     else
       if Rgeb y 0 && Rleb y 500 then
         x' <- randint (Zfloor (x - speed)) (Zceil x) ;;
         y' <- randint (Zfloor (y - speed)) (Zceil (y + speed)) ;;
         ret (x', y')
       else if Rleb y 0 then
         x' <- randint (Zfloor (x - speed)) (Zceil x) ;;
         y' <- randint (Zfloor y) (Zceil (y + speed)) ;;
         ret (x', y')
       else
         x' <- randint (Zfloor (x - speed)) (Zceil x) ;;
         y' <- randint (Zfloor (y - speed)) (Zceil y) ;;
         ret (x', y')) ;;
  let self :=
    mkShaking
      (mkEnemy (IZR (fst xy)) (IZR (snd xy)) (en_size self) (en_color self))
      speed in
  modify_game (check_hit self) ;;
  ret self.

(** ** The minions' constructors *)

Definition DiagonalMinionEnemy_init (size : Z) (color : string)
    (summoner : EnemyRef) : M DiagonalMinionEnemy :=
  c1 <- choice ["Up"; "Down"]%string ;;
  c2 <- choice ["Right"; "Left"]%string ;;
  ret (mkDiagonal (mkEnemy 0 0 size color) 2 summoner c1 c2).

Definition StraightMinionEnemy_init (size : Z) (color : string)
    (summoner : EnemyRef) : M StraightMinionEnemy :=
  c <- choice ["Up"; "Down"; "Right"; "Left"]%string ;;
  ret (mkStraight (mkEnemy 0 0 size color) 2 summoner c).

(** ** EnemyGenerator *)

Definition register (r : EnemyRef) : M unit :=
  modify_game (fun g => add_element g (REnemy r)).

(** [x] and [y] are the integers just assigned to the summoner's position. *)
Definition create_summon (x y : Z) (summoner : EnemyRef) : M unit :=
  dm <- DiagonalMinionEnemy_init 10 "pink" summoner ;;
  new_enemy_dm <- new (ODiagonal dm) ;;
  vx <- randint (x - 10) (x + 10) ;;
  assign_x new_enemy_dm (IZR vx) ;;
  vy <- randint (y - 10) (y + 10) ;;
  assign_y new_enemy_dm (IZR vy) ;;
  register new_enemy_dm ;;
  sm <- StraightMinionEnemy_init 10 "pink" summoner ;;
  new_enemy_sm <- new (OStraight sm) ;;
  vx <- randint (x - 10) (x + 10) ;;
  assign_x new_enemy_sm (IZR vx) ;;
  vy <- randint (y - 10) (y + 10) ;;
  assign_y new_enemy_sm (IZR vy) ;;
  register new_enemy_sm.

(** [for i in range(n): body]. *)
Fixpoint for_range (n : nat) (body : M unit) : M unit :=
  match n with
  | O => ret tt
  | S n' => body ;; for_range n' body
  end.

Definition create_enemy : M unit :=
  new_enemy_r <- new (OShaking (ShakingEnemy_init 20 "red")) ;;
  vx <- randint 200 800 ;;
  assign_x new_enemy_r (IZR vx) ;;
  vy <- randint 0 400 ;;
  assign_y new_enemy_r (IZR vy) ;;
  register new_enemy_r ;;
  new_enemy_p <- new (OPursuit (PursuitEnemy_init 10 "yellow")) ;;
  vx <- randint 200 800 ;;
  assign_x new_enemy_p (IZR vx) ;;
  vy <- randint 0 400 ;;
  assign_y new_enemy_p (IZR vy) ;;
  register new_enemy_p ;;
  g <- get_game ;;
  new_enemy_a <- new (OAroundHome (AroundHomeEnemy_init g 25 "blue")) ;;
  assign_x new_enemy_a (home_x (home g) - 50) ;;
  assign_y new_enemy_a (home_y (home g) - 50) ;;
  register new_enemy_a ;;
  new_enemy_s <- new (OSummon (SummonEnemy_init 35 "green")) ;;
  sx <- randint 200 800 ;;
  assign_x new_enemy_s (IZR sx) ;;
  sy <- randint 0 400 ;;
  assign_y new_enemy_s (IZR sy) ;;
  register new_enemy_s ;;
  for_range 6 (create_summon sx sy new_enemy_s) ;;
  modify_game (fun g => after g 3000 CreateEnemy).

Definition EnemyGenerator_init (game : TurtleAdventureGame) (level : Z)
  : TurtleAdventureGame :=
  after (set_generator_level game level) 100 CreateEnemy.

(** ** The session *)

(** [turtle.screen.setworldcoordinates(llx, lly, urx, ury)], of Python's
    [turtle] module: it divides the size of the canvas by the spans
    [urx - llx] and [ury - lly], and raises [ZeroDivisionError] when one of
    them is 0.  The scales it sets only serve the drawing. *)
Definition setworldcoordinates (llx lly urx ury : Z) : option unit :=
  if ((urx - llx =? 0) || (ury - lly =? 0))%Z then None else Some tt.

Definition init_game (self : TurtleAdventureGame)
  : option TurtleAdventureGame :=
  match
    setworldcoordinates 0 (screen_height self - 1) (screen_width self - 1) 0
  with
  | None => None
  | Some _ =>
      let self := set_waypoint self (mkWaypoint 0 0 false) in
      let self := add_element self RWaypoint in
      let self :=
        set_home self
          (mkHome (IZR (screen_width self - 100))
             (IZR (screen_height self / 2)) 20) in
      let self := add_element self RHome in
      let self := set_player self (mkPlayer (mkTurtle 0 0 (1, 0)) 5) in
      let self := add_element self RPlayer in
      let self := EnemyGenerator_init self (level self) in
      let self := set_player self (Player_set_x (player self) 50) in
      Some
        (set_player self
           (Player_set_y (player self) (IZR (screen_height self / 2))))
  end.

(** [TurtleAdventureGame.__init__], up to the call of the host's
    constructor: the attributes of a game that has no element yet. *)
Definition TurtleAdventureGame_attributes (screen_width screen_height level : Z)
  : TurtleAdventureGame :=
  mkGame level screen_width screen_height (mkWaypoint 0 0 false)
    (mkPlayer (mkTurtle 0 0 (1, 0)) 5) (mkHome 0 0 0) [] level
    [] [] false [] 0%Z [].

(** [TurtleAdventureGame(parent, screen_width, screen_height, level)]: the
    attributes are set and the host's constructor runs [init_game]. *)
Definition TurtleAdventureGame_init (screen_width screen_height level : Z)
  : option TurtleAdventureGame :=
  init_game (TurtleAdventureGame_attributes screen_width screen_height level).

(** ** The host's two triggers *)

(** One element's [update()], dispatched on its class; [render()] draws and
    changes nothing of the model. *)
Definition update_element (e : ElementRef) : M unit :=
  match e with
  | RWaypoint => ret tt
  | RHome => ret tt
  | RPlayer => modify_game Player_update
  | REnemy r =>
      o <- deref r ;;
      match o with
      | OShaking e =>
          e' <- ShakingEnemy_update e ;; store r (OShaking e')
      | OPursuit e =>
          g <- get_game ;;
          put_game (snd (PursuitEnemy_update e g)) ;;
          store r (OPursuit (fst (PursuitEnemy_update e g)))
      | OAroundHome e =>
          g <- get_game ;;
          put_game (snd (AroundHomeEnemy_update e g)) ;;
          store r (OAroundHome (fst (AroundHomeEnemy_update e g)))
      | OSummon e =>
          g <- get_game ;;
          put_game (snd (SummonEnemy_update e g)) ;;
          store r (OSummon (fst (SummonEnemy_update e g)))
      | ODiagonal e =>
          g <- get_game ;;
          put_game (snd (DiagonalMinionEnemy_update e g)) ;;
          store r (ODiagonal (fst (DiagonalMinionEnemy_update e g)))
      | OStraight e =>
          g <- get_game ;;
          put_game (snd (StraightMinionEnemy_update e g)) ;;
          store r (OStraight (fst (StraightMinionEnemy_update e g)))
      end
  end.

Fixpoint for_each {A} (l : list A) (body : A -> M unit) : M unit :=
  match l with
  | [] => ret tt
  | a :: l' => body a ;; for_each l' body
  end.

(** Modelled from the spec: the host's frame tick.  While the cycle has not
    been halted, it updates and renders every registered entity in insertion
    order; once halted, the container is no longer stepped. *)
Definition tick : M unit :=
  g <- get_game ;;
  if is_running g then for_each (elements g) update_element else ret tt.

Definition run_callback (cb : Callback) : M unit :=
  match cb with
  | CreateEnemy => create_enemy
  end.

(** Modelled from the spec: the event loop delivering a timer.  The first
    pending timer is removed, the clock advances to its due time and its
    callback runs. *)
Definition fire_timer : M unit :=
  g <- get_game ;;
  match timers g with
  | [] => ret tt
  | (t, cb) :: rest =>
      put_game (set_now (set_timers g rest) t) ;;
      run_callback cb
  end.

(** * The vocabulary of the properties

    Sample sessions, the runs the properties speak of, and the statements
    that are refuted as the specification words them. *)

(** ** Sample sessions *)

(** The reference session: 800 by 500, level 1.  Its constructor returns;
    the second branch is not taken. *)
Definition session0 : TurtleAdventureGame :=
  match TurtleAdventureGame_init 800 500 1 with
  | Some g => g
  | None => TurtleAdventureGame_attributes 800 500 1
  end.

(** The same session with the player put at [(x, y)]. *)
Definition player_at (g : TurtleAdventureGame) (x y : R) :=
  set_player g (Player_set_y (Player_set_x (player g) x) y).

(** ** The minions' bounce *)

(** Whether a position is on or beyond a bound of the world, per axis. *)
Definition x_bound (x : R) : bool := Rgeb x 800 || Rleb x 0.
Definition y_bound (y : R) : bool := Rgeb y 500 || Rleb y 0.

(** The claim of C8 for one diagonal minion and one session: started inside
    the world, if the first update takes it out over the right bound and the
    second update finds it still out there, then the second update leaves the
    sign of the speed alone, that is, it only accelerates. *)
Definition flips_once_per_crossing (m : DiagonalMinionEnemy)
    (g : TurtleAdventureGame) : Prop :=
  let m1 := fst (DiagonalMinionEnemy_update m g) in
  let m2 := fst (DiagonalMinionEnemy_update m1 g) in
  0 < en_x m < 800 -> 0 < en_y m < 500 ->
  en_x m1 >= 800 -> 0 < en_y m1 < 500 ->
  en_x m2 >= 800 -> 0 < en_y m2 < 500 ->
  diagonal_speed m2 = diagonal_speed m1 + 4 / 10.


(** A minion heading up and right at speed 2 from (799.8, 250), the player
    far away at (50, 250). *)
Definition minion0 : DiagonalMinionEnemy :=
  mkDiagonal (mkEnemy (7998 / 10) 250 10 "pink") 2 0%nat "Up" "Right".

(** ** The patrol around home *)

(** [n] successive updates of one patrol enemy.  Its update reads nothing of
    the game, which only receives the loss signal. *)
Fixpoint patrol_run (n : nat) (self : AroundHomeEnemy)
    (game : TurtleAdventureGame) : AroundHomeEnemy :=
  match n with
  | O => self
  | S n' => fst (AroundHomeEnemy_update (patrol_run n' self game) game)
  end.

(** The counters and flags of a patrol enemy, without its position. *)
Record PatrolPhase := mkPhase {
  c_move_x : Z;
  c_move_y : Z;
  c_moving_x : bool;
  c_moving_y : bool;
  c_move_left : bool;
  c_move_up : bool
}.

Definition phase_of (e : AroundHomeEnemy) : PatrolPhase :=
  mkPhase (move_x e) (move_y e) (moving_x e) (moving_y e) (move_left e)
    (move_up e).

(** What [AroundHomeEnemy_update] does to the counters and flags. *)
Definition phase_step (p : PatrolPhase) : PatrolPhase :=
  if c_moving_x p then
    if Bool.eqb (c_move_left p) false then
      if (c_move_x p + 3 >=? 100)%Z
      then mkPhase (c_move_x p + 3) (c_move_y p) false true true (c_move_up p)
      else mkPhase (c_move_x p + 3) (c_move_y p) (c_moving_x p) (c_moving_y p)
             (c_move_left p) (c_move_up p)
    else
      if (c_move_x p - 3 <=? 0)%Z
      then mkPhase (c_move_x p - 3) (c_move_y p) false true false (c_move_up p)
      else mkPhase (c_move_x p - 3) (c_move_y p) (c_moving_x p) (c_moving_y p)
             (c_move_left p) (c_move_up p)
  else
    if Bool.eqb (c_move_up p) false then
      if (c_move_y p + 3 >=? 100)%Z
      then mkPhase (c_move_x p) (c_move_y p + 3) true false (c_move_left p) true
      else mkPhase (c_move_x p) (c_move_y p + 3) (c_moving_x p) (c_moving_y p)
             (c_move_left p) (c_move_up p)
    else
      if (c_move_y p - 3 <=? 0)%Z
      then mkPhase (c_move_x p) (c_move_y p - 3) true false (c_move_left p) false
      else mkPhase (c_move_x p) (c_move_y p - 3) (c_moving_x p) (c_moving_y p)
             (c_move_left p) (c_move_up p).

Fixpoint phase_run (n : nat) (p : PatrolPhase) : PatrolPhase :=
  match n with
  | O => p
  | S n' => phase_step (phase_run n' p)
  end.

(** The phase a patrol enemy is created in. *)
Definition phase0 : PatrolPhase := mkPhase 0 0 true false true true.

Definition at_origin (p : PatrolPhase) : bool :=
  ((c_move_x p =? 0) && (c_move_y p =? 0))%Z.

(** The patrol enemy of the reference session, as its constructor leaves it. *)
Definition patrol0 : AroundHomeEnemy := AroundHomeEnemy_init session0 25 "blue".

(** The claim of C7 on the closure of the path: some number of updates
    amounts to [units] of cumulative displacement, 3 per update, and brings
    the enemy back to where it started. *)
Definition returns_after_units (units : Z) (e0 : AroundHomeEnemy)
    (g : TurtleAdventureGame) : Prop :=
  exists n : nat,
    (3 * Z.of_nat n = units)%Z /\
    en_x (patrol_run n e0 g) = en_x e0 /\ en_y (patrol_run n e0 g) = en_y e0.

(** ** The player *)

(** The turtle after the two calls [setheading(towards(x, y))] and
    [forward(speed)]. *)
Definition step_towards (t : RawTurtle) (x y speed : R) : RawTurtle :=
  RawTurtle_forward (RawTurtle_setheading t (RawTurtle_towards t x y)) speed.

(** The claim of C5 on one session: when home contains the player's
    position, the update performs no waypoint movement. *)
Definition home_check_gates_movement (g : TurtleAdventureGame) : Prop :=
  Home_contains (home g) (Player_x (player g)) (Player_y (player g)) = true ->
  Player_x (player (Player_update g)) = Player_x (player g) /\
  Player_y (player (Player_update g)) = Player_y (player g).

(** The reference session with the player on home's centre (700, 250) and
    the waypoint active 5 units to its right. *)
Definition session_at_home : TurtleAdventureGame :=
  set_waypoint (player_at session0 700 250) (mkWaypoint 705 250 true).

(** The player's new position is on the half-line from [(x, y)] through
    [(wx, wy)]. *)
Definition on_line_toward (x y wx wy x' y' : R) : Prop :=
  exists k : R, 0 <= k /\ x' = x + k * (wx - x) /\ y' = y + k * (wy - y).

(** The claim of C6 on one session. *)
Definition waypoint_arrival (g : TurtleAdventureGame) : Prop :=
  let p := player g in
  let w := waypoint g in
  let g' := Player_update g in
  Waypoint_is_active w = true ->
  Home_contains (home g) (Player_x p) (Player_y p) = false ->
  RawTurtle_distance (p_turtle p) (wp_x w) (wp_y w) <= p_speed p ->
  Waypoint_is_active (waypoint g') = false /\
  on_line_toward (Player_x p) (Player_y p) (wp_x w) (wp_y w)
    (Player_x (player g')) (Player_y (player g')).

(** The reference session, the player at its start (50, 250), with the
    waypoint activated on the very point where the player stands. *)
Definition session_on_waypoint : TurtleAdventureGame :=
  set_waypoint session0 (Waypoint_activate (waypoint session0) 50 250).

(** The reference session with the waypoint activated 3 units to the right
    of the player's start (50, 250). *)
Definition session_near_waypoint : TurtleAdventureGame :=
  set_waypoint session0 (Waypoint_activate (waypoint session0) 53 250).

(** ** The spawn scheduler *)

(** A computation run from [w] returns, and the result satisfies [Q]. *)
Definition wp {A} (m : M A) (Q : A -> World -> Prop) (w : World) : Prop :=
  exists a w', m w = Some (a, w') /\ Q a w'.

(** The world after one value of the generator has been consumed. *)
Definition advance (w : World) : World :=
  mkWorld (game w) (mkRandom (draws (random w)) (S (cursor (random w)))).

(** The game after the objects [news] have been created and registered with
    the element container, in this order, and nothing else has changed. *)
Definition spawn (g : TurtleAdventureGame) (news : list EnemyObj) :=
  set_elements (set_heap g (heap g ++ news))
    (elements g ++ map REnemy (seq (List.length (heap g)) (List.length news))).

(** An enemy at integer coordinates within 10 units of [(x, y)] per axis. *)
Definition near (x y : Z) (e : Enemy) : Prop :=
  exists vx vy : Z,
    en_x e = IZR vx /\ en_y e = IZR vy /\
    (x - 10 <= vx <= x + 10)%Z /\ (y - 10 <= vy <= y + 10)%Z.

Definition diagonal_minion_of (x y : Z) (s : EnemyRef)
    (m : DiagonalMinionEnemy) : Prop :=
  diagonal_summoner m = s /\ near x y m /\ diagonal_speed m = 2 /\
  en_size m = 10%Z /\ en_color m = "pink"%string /\
  In (choosing1 m) ["Up"; "Down"]%string /\
  In (choosing2 m) ["Right"; "Left"]%string.

Definition straight_minion_of (x y : Z) (s : EnemyRef)
    (m : StraightMinionEnemy) : Prop :=
  straight_summoner m = s /\ near x y m /\ straight_speed m = 2 /\
  en_size m = 10%Z /\ en_color m = "pink"%string /\
  In (choosing m) ["Up"; "Down"; "Right"; "Left"]%string.

(** [k] pairs of minions of the summoner [s] spawned at [(x, y)], each pair a
    diagonal minion followed by a straight one. *)
Fixpoint minion_pairs (k : nat) (x y : Z) (s : EnemyRef)
    (l : list EnemyObj) : Prop :=
  match k with
  | O => l = []
  | S k' =>
      exists dm sm l',
        l = ODiagonal dm :: OStraight sm :: l' /\
        diagonal_minion_of x y s dm /\ straight_minion_of x y s sm /\
        minion_pairs k' x y s l'
  end.

Definition is_shaking (o : EnemyObj) : bool :=
  match o with OShaking _ => true | _ => false end.
Definition is_pursuit (o : EnemyObj) : bool :=
  match o with OPursuit _ => true | _ => false end.
Definition is_around_home (o : EnemyObj) : bool :=
  match o with OAroundHome _ => true | _ => false end.
Definition is_summon (o : EnemyObj) : bool :=
  match o with OSummon _ => true | _ => false end.
Definition is_diagonal (o : EnemyObj) : bool :=
  match o with ODiagonal _ => true | _ => false end.
Definition is_straight (o : EnemyObj) : bool :=
  match o with OStraight _ => true | _ => false end.

(** How many objects of a list belong to a class. *)
Definition count (f : EnemyObj -> bool) (l : list EnemyObj) : nat :=
  List.length (filter f l).

(** The world of the reference session, with a generator that only
    delivers zeros. *)
Definition world0 : World := mkWorld session0 (mkRandom (fun _ => O) O).

(** The game [g] with its heap and its element container replaced: the
    form every state of a firing takes. *)
Definition with_objects (g : TurtleAdventureGame) (h : list EnemyObj)
    (e : list ElementRef) : TurtleAdventureGame :=
  set_elements (set_heap g h) e.

(** An enemy at the integer coordinates [(vx, vy)], drawn in the ranges
    [create_enemy] uses for the walker, the pursuer and the summoner. *)
Definition placed_at_random (e : Enemy) (vx vy : Z) : Prop :=
  en_x e = IZR vx /\ en_y e = IZR vy /\
  (200 <= vx <= 800)%Z /\ (0 <= vy <= 400)%Z.

(** What one firing creates from a game [g] whose heap is [h]: the walker
    [r], the pursuer [p], the patroller [a], the summoner [s] spawned at
    [(sx, sy)] and referenced as the fourth new object, and the minions
    [l]. *)
Definition firing (g : TurtleAdventureGame) (h : list EnemyObj)
    (r : ShakingEnemy) (p : PursuitEnemy) (a : AroundHomeEnemy)
    (s : SummonEnemy) (sx sy : Z) (l : list EnemyObj) : Prop :=
  (exists vx vy, placed_at_random r vx vy) /\
  en_size r = 20%Z /\ en_color r = "red"%string /\ shaking_speed r = 25 / 10 /\
  (exists vx vy, placed_at_random p vx vy) /\
  en_size p = 10%Z /\ en_color p = "yellow"%string /\ pursuit_speed p = 1 /\
  a = AroundHomeEnemy_init g 25 "blue" /\
  placed_at_random s sx sy /\
  en_size s = 35%Z /\ en_color s = "green"%string /\ summon_speed s = 1 /\
  minion_pairs 6 sx sy (List.length h + 3)%nat l.


(** ** Terminal transitions *)

(** Nothing has moved between two states of the game: the player and every
    enemy object are the same. *)
Definition frozen (g g' : TurtleAdventureGame) : Prop :=
  player g' = player g /\ heap g' = heap g.

(** ** Runs, events and invariants of the further properties *)

(** A pointer click at [(x, y)]: the handler [init_game] binds to
    [<Button-1>] activates the waypoint there. *)
Definition click (g : TurtleAdventureGame) (x y : R) : TurtleAdventureGame :=
  set_waypoint g (Waypoint_activate (waypoint g) x y).

(** [n] successive updates of the player. *)
Fixpoint Player_run (n : nat) (g : TurtleAdventureGame) : TurtleAdventureGame :=
  match n with
  | O => g
  | S n' => Player_run n' (Player_update g)
  end.

(** The player 4 units left of home's box, walking right. *)
Definition session_before_home : TurtleAdventureGame :=
  click (player_at session0 686 250) 780 250.

(** [n] successive updates of one pursuer, the game threaded through them. *)
Fixpoint pursuit_run (n : nat) (e : PursuitEnemy) (g : TurtleAdventureGame)
  : PursuitEnemy * TurtleAdventureGame :=
  match n with
  | O => (e, g)
  | S n' =>
      PursuitEnemy_update (fst (pursuit_run n' e g)) (snd (pursuit_run n' e g))
  end.

(** An offset [d] from the player after [n] unit steps toward it. *)
Definition chase (d : Z) (n : nat) : Z :=
  (Z.sgn d * Z.max (Z.abs d - Z.of_nat n) 0)%Z.

(** A patrol phase with one counter on a corner value. *)
Definition on_track (p : PatrolPhase) : bool :=
  ((c_move_x p =? -3) || (c_move_x p =? 0) || (c_move_x p =? 102)
   || (c_move_y p =? -3) || (c_move_y p =? 0) || (c_move_y p =? 102))%Z.

(** A patrol phase with both counters between the corner values. *)
Definition in_square (p : PatrolPhase) : bool :=
  ((-3 <=? c_move_x p) && (c_move_x p <=? 102)
   && (-3 <=? c_move_y p) && (c_move_y p <=? 102))%Z.

(** A random walker at integer coordinates no further than [speed + 1]
    outside the world, with a speed that is not negative. *)
Definition within_reach (e : ShakingEnemy) : Prop :=
  (exists zx zy : Z, en_x e = IZR zx /\ en_y e = IZR zy) /\
  0 <= shaking_speed e /\
  - (shaking_speed e + 1) <= en_x e <= 800 + (shaking_speed e + 1) /\
  - (shaking_speed e + 1) <= en_y e <= 500 + (shaking_speed e + 1).

(** The integer [z] is in the range [ShakingEnemy_update] draws from for a
    coordinate [v] on an axis of length [hi]: two-sided inside the world,
    one-sided outside. *)
Definition drawn_around (v hi speed : R) (z : Z) : Prop :=
  (0 <= v <= hi -> (Zfloor (v - speed) <= z <= Zceil (v + speed))%Z) /\
  (v < 0 -> (Zfloor v <= z <= Zceil (v + speed))%Z) /\
  (hi < v -> (Zfloor (v - speed) <= z <= Zceil v)%Z).

(** The class of an enemy object. *)
Inductive EnemyClass :=
| CShaking | CPursuit | CAroundHome | CSummon | CDiagonal | CStraight.

Definition class_of (o : EnemyObj) : EnemyClass :=
  match o with
  | OShaking _ => CShaking
  | OPursuit _ => CPursuit
  | OAroundHome _ => CAroundHome
  | OSummon _ => CSummon
  | ODiagonal _ => CDiagonal
  | OStraight _ => CStraight
  end.

(** What an update needs of an object: a random walker's speed is not
    negative, so that the ranges it draws from are not empty. *)
Definition sound_object (o : EnemyObj) : Prop :=
  match o with
  | OShaking e => 0 <= shaking_speed e
  | _ => True
  end.

(** A game whose objects are sound and whose container only refers to
    objects of the heap. *)
Definition sound_game (g : TurtleAdventureGame) : Prop :=
  Forall sound_object (heap g) /\
  forall r, In (REnemy r) (elements g) -> (r < List.length (heap g))%nat.

(** Two states of a game with the same cast: the same container, enemy list,
    timers, clock and home, and objects of the same classes at the same
    references. *)
Definition same_cast (g g' : TurtleAdventureGame) : Prop :=
  elements g' = elements g /\ enemies g' = enemies g /\
  timers g' = timers g /\ now g' = now g /\ home g' = home g /\
  map class_of (heap g') = map class_of (heap g).

(** What the first firing of the reference session creates when the
    generator only delivers zeros: every random position is the least of its
    range and every random direction the first of its list. *)
Definition firing0 : list EnemyObj :=
  ([OShaking (mkShaking (mkEnemy 200 0 20 "red") (25 / 10));
    OPursuit (mkPursuit (mkEnemy 200 0 10 "yellow") 1);
    OAroundHome patrol0;
    OSummon (mkSummon (mkEnemy 200 0 35 "green") 1)]
   ++ List.concat
        (repeat
           [ODiagonal
              (mkDiagonal (mkEnemy 190 (-10) 10 "pink") 2 3%nat "Up" "Right");
            OStraight (mkStraight (mkEnemy 190 (-10) 10 "pink") 2 3%nat "Up")]
           6))%list.

(** The world of the reference session, started, after that firing. *)
Definition world1 : World :=
  mkWorld
    (after (spawn (set_now (set_timers (start session0) []) 100) firing0)
       3000 CreateEnemy)
    (mkRandom (fun _ => O) 48).

(** What the host delivers to a session. *)
Inductive Event :=
| Tick
| Timer
| Click (x y : R)
| Start.

Definition run_event (ev : Event) : M unit :=
  match ev with
  | Tick => tick
  | Timer => fire_timer
  | Click x y =>
      modify_game (fun g => click g x y)
  | Start => modify_game start
  end.

(** How many timer deliveries a sequence of events holds. *)
Definition timer_count (evs : list Event) : nat :=
  List.length (filter (fun ev => match ev with Timer => true | _ => false end)
                 evs).

(** The classes of the sixteen objects of one firing, in creation order. *)
Definition firing_classes : list EnemyClass :=
  ([CShaking; CPursuit; CAroundHome; CSummon]
   ++ List.concat (repeat [CDiagonal; CStraight] 6))%list.

(** The state of a session that has had [k] firings. *)
Definition after_firings (k : nat) (g : TurtleAdventureGame) : Prop :=
  sound_game g /\
  elements g = [RWaypoint; RHome; RPlayer] ++ map REnemy (seq 0 (16 * k)) /\
  map class_of (heap g) = List.concat (repeat firing_classes k) /\
  enemies g = [] /\
  exists t, timers g = [(t, CreateEnemy)].

(** [n] successive updates of one diagonal minion, the game threaded through
    them. *)
Fixpoint diagonal_run (n : nat) (m : DiagonalMinionEnemy)
    (g : TurtleAdventureGame) : DiagonalMinionEnemy * TurtleAdventureGame :=
  match n with
  | O => (m, g)
  | S n' =>
      DiagonalMinionEnemy_update (fst (diagonal_run n' m g))
        (snd (diagonal_run n' m g))
  end.

(** The slope of the line a diagonal minion moves on: 1 when it adds its
    speed to both coordinates or subtracts it from both, -1 otherwise. *)
Definition diagonal_slope (m : DiagonalMinionEnemy) : R :=
  if Bool.eqb (String.eqb (choosing1 m) "Up")
       (String.eqb (choosing2 m) "Right")
  then 1 else -1.

(** [n] successive updates of one straight minion. *)
Fixpoint straight_run (n : nat) (m : StraightMinionEnemy)
    (g : TurtleAdventureGame) : StraightMinionEnemy * TurtleAdventureGame :=
  match n with
  | O => (m, g)
  | S n' =>
      StraightMinionEnemy_update (fst (straight_run n' m g))
        (snd (straight_run n' m g))
  end.

(** A straight minion whose direction is "Right" or "Left" moves along x;
    any other direction moves it along y. *)
Definition moves_along_x (m : StraightMinionEnemy) : bool :=
  String.eqb (choosing m) "Right" || String.eqb (choosing m) "Left".

(** [n] successive updates of one summoner. *)
Fixpoint summon_run (n : nat) (s : SummonEnemy) (g : TurtleAdventureGame)
  : SummonEnemy * TurtleAdventureGame :=
  match n with
  | O => (s, g)
  | S n' =>
      SummonEnemy_update (fst (summon_run n' s g)) (snd (summon_run n' s g))
  end.

(** An offset [d] from the player after [n] unit steps of a summoner: it
    closes in, and from the player's coordinate on it alternates between
    0 and -1. *)
Definition dither (d : Z) (n : nat) : Z :=
  if (Z.of_nat n <=? Z.abs d)%Z
  then (d - Z.sgn d * Z.of_nat n)%Z
  else (- ((Z.of_nat n - Z.abs d) mod 2))%Z.

(** * Properties *)

(** ** Comparisons *)

Lemma Rltb_true a b : Rltb a b = true <-> a < b.
Proof. unfold Rltb; destruct (Rlt_dec a b); split; intros; try easy. Qed.

Lemma Rltb_false a b : Rltb a b = false <-> b <= a.
Proof.
  unfold Rltb; destruct (Rlt_dec a b); split; intros; try easy; lra.
Qed.

Lemma Rleb_true a b : Rleb a b = true <-> a <= b.
Proof. unfold Rleb; destruct (Rle_dec a b); split; intros; try easy. Qed.

Lemma Rleb_false a b : Rleb a b = false <-> b < a.
Proof.
  unfold Rleb; destruct (Rle_dec a b); split; intros; try easy; lra.
Qed.

Lemma Req_b_true a b : Req_b a b = true <-> a = b.
Proof. unfold Req_b; destruct (Req_dec_T a b); split; intros; try easy. Qed.

(** Decide a boolean comparison between two numbers once the surrounding
    hypotheses settle it. *)
Ltac rcmp_true c :=
  let H := fresh "Hc" in
  assert (H : c = true)
    by (first [ apply Rltb_true | apply Rleb_true | apply Req_b_true ];
        simpl; lra);
  rewrite H; clear H.

Ltac rcmp_false c :=
  let H := fresh "Hc" in
  assert (H : c = false)
    by (first [ apply Rltb_false | apply Rleb_false ]; simpl; lra);
  rewrite H; clear H.

(** Expose the player's coordinates of a concrete session. *)
Ltac player_pos :=
  unfold player_at, Player_x, Player_y, Player_set_x, Player_set_y,
    RawTurtle_setx, RawTurtle_sety; simpl;
  try change (500 / 2)%Z with 250%Z.

(** ** Collision *)

Lemma andb_true_4 (a b c d : bool) :
  (a && b) && (c && d) = true <->
  (a = true /\ b = true) /\ (c = true /\ d = true).
Proof. rewrite !andb_true_iff. tauto. Qed.

(** C1. [hits_player] answers true exactly when the player's point lies
    strictly inside the square of side [size] centred on the enemy, and a
    point on the square's boundary lines, at distance exactly [size/2] on
    either axis, is not a hit. *)
Theorem hits_player_strictly_inside (self : Enemy) (game : TurtleAdventureGame) :
  let px := Player_x (player game) in
  let py := Player_y (player game) in
  let half := IZR (en_size self) / 2 in
  (hits_player self game = true <->
   (en_x self - half < px < en_x self + half) /\
   (en_y self - half < py < en_y self + half))
  /\
  (px = en_x self - half \/ px = en_x self + half \/
   py = en_y self - half \/ py = en_y self + half ->
   hits_player self game = false).
Proof.
  intros px py half. split.
  - unfold hits_player. rewrite andb_true_4, !Rltb_true. fold px py half. tauto.
  - intros Hb. apply not_true_is_false. unfold hits_player.
    rewrite andb_true_4, !Rltb_true. fold px py half. lra.
Qed.

(** A red enemy of size 20 at (100, 100), and the player on its right edge. *)
Lemma hits_player_strictly_inside_witness :
  hits_player (mkEnemy 100 100 20 "red") (player_at session0 110 100) = false.
Proof.
  apply (proj2 (hits_player_strictly_inside (mkEnemy 100 100 20 "red")
                  (player_at session0 110 100))).
  right; left. player_pos. lra.
Defined.

(** ** The summoner *)

(** C4. A summoner built by its constructor has speed 1, and one update moves
    a coordinate that differs from the player's by 1 toward it.  On a
    coordinate that equals the player's, the first test [>=] already holds:
    the update subtracts 1 and the branch for equality is never taken, so
    the summoner steps off the player instead of staying. *)
Theorem SummonEnemy_update_on_equal_coordinate
    (self : SummonEnemy) (game : TurtleAdventureGame) :
  summon_speed self = 1 ->
  let self' := fst (SummonEnemy_update self game) in
  (en_x self = Player_x (player game) -> en_x self' = en_x self - 1) /\
  (en_y self = Player_y (player game) -> en_y self' = en_y self - 1) /\
  (en_x self > Player_x (player game) -> en_x self' = en_x self - 1) /\
  (en_x self < Player_x (player game) -> en_x self' = en_x self + 1) /\
  (en_y self > Player_y (player game) -> en_y self' = en_y self - 1) /\
  (en_y self < Player_y (player game) -> en_y self' = en_y self + 1) /\
  summon_speed self' = 1.
Proof.
  intros Hs self'. subst self'. unfold SummonEnemy_update. cbn [fst].
  rewrite Hs, (ZfloorZ 1). cbn [en_x en_y summon_base summon_speed].
  unfold Rgeb.
  repeat split; intros H.
  - rcmp_true (Rleb (Player_x (player game)) (en_x self)). reflexivity.
  - rcmp_true (Rleb (Player_y (player game)) (en_y self)). reflexivity.
  - rcmp_true (Rleb (Player_x (player game)) (en_x self)). reflexivity.
  - rcmp_false (Rleb (Player_x (player game)) (en_x self)).
    destruct (Req_b (en_x self) (Player_x (player game))) eqn:E;
      [apply Req_b_true in E; lra | reflexivity].
  - rcmp_true (Rleb (Player_y (player game)) (en_y self)). reflexivity.
  - rcmp_false (Rleb (Player_y (player game)) (en_y self)).
    destruct (Req_b (en_y self) (Player_y (player game))) eqn:E;
      [apply Req_b_true in E; lra | reflexivity].
Qed.

(** The summoner and the player both at (100, 100): the summoner ends the
    update at (99, 99). *)
Lemma SummonEnemy_update_on_equal_coordinate_witness :
  let self := mkSummon (mkEnemy 100 100 35 "green") 1 in
  let self' := fst (SummonEnemy_update self (player_at session0 100 100)) in
  en_x self' = 100 - 1 /\ en_y self' = 100 - 1.
Proof.
  intros self self'.
  pose proof (SummonEnemy_update_on_equal_coordinate self
                (player_at session0 100 100) eq_refl) as H.
  destruct H as (Hx & Hy & _). split.
  - apply Hx. player_pos. reflexivity.
  - apply Hy. player_pos. reflexivity.
Defined.

(** ** The minions' bounce *)

Lemma bounce_xorb (x y speed : R) :
  bounce x y speed = if xorb (x_bound x) (y_bound y) then - speed else speed.
Proof.
  unfold bounce, x_bound, y_bound.
  destruct (Rgeb x 800), (Rleb x 0), (Rgeb y 500), (Rleb y 0); simpl; lra.
Qed.

Lemma x_bound_true (x : R) : x_bound x = true <-> x >= 800 \/ x <= 0.
Proof.
  unfold x_bound, Rgeb. rewrite orb_true_iff, !Rleb_true.
  split; intros [H | H]; auto with real.
Qed.

Lemma y_bound_true (y : R) : y_bound y = true <-> y >= 500 \/ y <= 0.
Proof.
  unfold y_bound, Rgeb. rewrite orb_true_iff, !Rleb_true.
  split; intros [H | H]; auto with real.
Qed.

(** The position a minion reaches and the speed it keeps, in one update. *)
Lemma DiagonalMinionEnemy_update_speed (self : DiagonalMinionEnemy) game :
  let self' := fst (DiagonalMinionEnemy_update self game) in
  diagonal_speed self' =
  bounce (en_x self') (en_y self') (diagonal_speed self + 4 / 10).
Proof. reflexivity. Qed.

Lemma StraightMinionEnemy_update_speed (self : StraightMinionEnemy) game :
  let self' := fst (StraightMinionEnemy_update self game) in
  straight_speed self' =
  bounce (en_x self') (en_y self') (straight_speed self + 4 / 10).
Proof. reflexivity. Qed.

Lemma DiagonalMinionEnemy_update_pos (self : DiagonalMinionEnemy) game :
  let self' := fst (DiagonalMinionEnemy_update self game) in
  en_x self' =
    (if String.eqb (choosing2 self) "Right"
     then en_x self + (diagonal_speed self + 4 / 10)
     else en_x self - (diagonal_speed self + 4 / 10)) /\
  en_y self' =
    (if String.eqb (choosing1 self) "Up"
     then en_y self + (diagonal_speed self + 4 / 10)
     else en_y self - (diagonal_speed self + 4 / 10)) /\
  choosing1 self' = choosing1 self /\ choosing2 self' = choosing2 self.
Proof. repeat split. Qed.


Lemma minion0_run :
  let g := player_at session0 50 250 in
  let m1 := fst (DiagonalMinionEnemy_update minion0 g) in
  let m2 := fst (DiagonalMinionEnemy_update m1 g) in
  (en_x m1 = 8022 / 10 /\ en_y m1 = 2524 / 10 /\ diagonal_speed m1 = - (24 / 10))
  /\
  (en_x m2 = 8002 / 10 /\ en_y m2 = 2504 / 10 /\ diagonal_speed m2 = 2).
Proof.
  intros g m1 m2.
  assert (X1 : en_x m1 = 8022 / 10)
    by (unfold m1, DiagonalMinionEnemy_update, minion0; simpl; lra).
  assert (Y1 : en_y m1 = 2524 / 10)
    by (unfold m1, DiagonalMinionEnemy_update, minion0; simpl; lra).
  assert (S1 : diagonal_speed m1 = - (24 / 10)).
  { pose proof (DiagonalMinionEnemy_update_speed minion0 g) as E.
    cbv zeta in E. fold m1 in E. rewrite E, bounce_xorb, X1, Y1.
    replace (x_bound (8022 / 10)) with true
      by (symmetry; apply x_bound_true; lra).
    replace (y_bound (2524 / 10)) with false
      by (symmetry; apply not_true_is_false; rewrite y_bound_true; lra).
    simpl. lra. }
  assert (C1 : choosing1 m1 = "Up"%string) by reflexivity.
  assert (C2 : choosing2 m1 = "Right"%string) by reflexivity.
  assert (X2 : en_x m2 = 8002 / 10).
  { unfold m2, DiagonalMinionEnemy_update.
    cbn [fst en_x en_y diagonal_base]. rewrite S1, C2, X1. simpl. lra. }
  assert (Y2 : en_y m2 = 2504 / 10).
  { unfold m2, DiagonalMinionEnemy_update.
    cbn [fst en_x en_y diagonal_base]. rewrite S1, C1, Y1. simpl. lra. }
  repeat split; try assumption.
  pose proof (DiagonalMinionEnemy_update_speed m1 g) as E.
  cbv zeta in E. fold m2 in E. rewrite E, bounce_xorb, X2, Y2, S1.
  replace (x_bound (8002 / 10)) with true
    by (symmetry; apply x_bound_true; lra).
  replace (y_bound (2504 / 10)) with false
    by (symmetry; apply not_true_is_false; rewrite y_bound_true; lra).
  simpl. lra.
Qed.

(** C8, refuted as stated.  The minion crosses x = 800 once, going from 799.8
    to 802.2, which flips its speed to -2.4; the next update leaves it at
    800.2, still beyond the bound without having come back, and flips the
    speed again, to 2 instead of -2. *)
Lemma minion_flipped_again_while_out :
  ~ flips_once_per_crossing minion0 (player_at session0 50 250).
Proof.
  unfold flips_once_per_crossing.
  destruct minion0_run as [(X1 & Y1 & S1) (X2 & Y2 & S2)].
  intros H. rewrite X1, Y1, X2, Y2, S1, S2 in H.
  assert (Hx : 0 < en_x minion0 < 800) by (simpl; lra).
  assert (Hy : 0 < en_y minion0 < 500) by (simpl; lra).
  specialize (H Hx Hy). lra.
Qed.

(** C8, as the code has it.  The test is on the position reached in the
    frame, whatever the position before: a minion's update accelerates the
    speed by 0.4, moves, and then negates the speed when exactly one of the
    two axes is on or beyond a bound (x >= 800 or x <= 0; y >= 500 or
    y <= 0), and keeps it otherwise.  So a minion that stays beyond one bound
    has its speed negated on each of those frames. *)
Theorem minion_speed_negated_per_frame :
  (forall (self : DiagonalMinionEnemy) game,
     let self' := fst (DiagonalMinionEnemy_update self game) in
     diagonal_speed self' =
     if xorb (x_bound (en_x self')) (y_bound (en_y self'))
     then - (diagonal_speed self + 4 / 10)
     else diagonal_speed self + 4 / 10)
  /\
  (forall (self : StraightMinionEnemy) game,
     let self' := fst (StraightMinionEnemy_update self game) in
     straight_speed self' =
     if xorb (x_bound (en_x self')) (y_bound (en_y self'))
     then - (straight_speed self + 4 / 10)
     else straight_speed self + 4 / 10).
Proof.
  split; intros self g self'; subst self'.
  - rewrite DiagonalMinionEnemy_update_speed. apply bounce_xorb.
  - rewrite StraightMinionEnemy_update_speed. apply bounce_xorb.
Qed.



(** ** The patrol around home *)

Lemma AroundHomeEnemy_update_phase (self : AroundHomeEnemy) game :
  phase_of (fst (AroundHomeEnemy_update self game)) = phase_step (phase_of self).
Proof.
  unfold AroundHomeEnemy_update, phase_step, phase_of. cbn [fst].
  cbn [c_move_x c_move_y c_moving_x c_moving_y c_move_left c_move_up].
  destruct (moving_x self), (move_left self), (move_up self); cbn [Bool.eqb];
    repeat match goal with
           | |- context [if ?c then _ else _] => destruct c
           end; reflexivity.
Qed.

(** The position follows the counters: each update changes one coordinate
    and the counter of its axis by the same amount. *)
Lemma AroundHomeEnemy_update_offset (self : AroundHomeEnemy) game :
  let self' := fst (AroundHomeEnemy_update self game) in
  en_x self' - IZR (move_x self') = en_x self - IZR (move_x self) /\
  en_y self' - IZR (move_y self') = en_y self - IZR (move_y self).
Proof.
  unfold AroundHomeEnemy_update. cbn [fst].
  destruct (moving_x self), (move_left self), (move_up self); cbn [Bool.eqb];
    repeat match goal with
           | |- context [if ?c then _ else _] => destruct c
           end;
    cbn [en_x en_y around_base move_x move_y Enemy_set_x Enemy_set_y];
    rewrite ?plus_IZR, ?minus_IZR; split; lra.
Qed.

Lemma patrol_run_phase n (self : AroundHomeEnemy) game :
  phase_of (patrol_run n self game) = phase_run n (phase_of self).
Proof.
  induction n as [| n IH]; [reflexivity |].
  cbn [patrol_run phase_run]. now rewrite AroundHomeEnemy_update_phase, IH.
Qed.

Lemma patrol_run_offset n (self : AroundHomeEnemy) game :
  en_x (patrol_run n self game) - IZR (move_x (patrol_run n self game))
    = en_x self - IZR (move_x self) /\
  en_y (patrol_run n self game) - IZR (move_y (patrol_run n self game))
    = en_y self - IZR (move_y self).
Proof.
  induction n as [| n [IHx IHy]]; [split; reflexivity |].
  cbn [patrol_run].
  destruct (AroundHomeEnemy_update_offset (patrol_run n self game) game)
    as [Hx Hy].
  split; [now rewrite Hx | now rewrite Hy].
Qed.

(** From the constructor's state, the position after [n] updates is the
    start displaced by the two counters. *)
Lemma patrol_position n game size color :
  let e0 := AroundHomeEnemy_init game size color in
  en_x (patrol_run n e0 game) = en_x e0 + IZR (c_move_x (phase_run n phase0)) /\
  en_y (patrol_run n e0 game) = en_y e0 + IZR (c_move_y (phase_run n phase0)).
Proof.
  intros e0.
  destruct (patrol_run_offset n e0 game) as [Hx Hy].
  pose proof (patrol_run_phase n e0 game) as Hp.
  change (phase_of e0) with phase0 in Hp. rewrite <- Hp.
  cbn [phase_of c_move_x c_move_y].
  change (move_x e0) with 0%Z in Hx. change (move_y e0) with 0%Z in Hy.
  split; lra.
Qed.

Lemma phase_run_add n m p : phase_run (n + m) p = phase_run n (phase_run m p).
Proof.
  induction n as [| n IH]; [reflexivity |].
  cbn [Nat.add phase_run]. now rewrite IH.
Qed.

(** The phases reached from the constructor's state, computed. *)
Lemma phase_run_values :
  phase_run 2 phase0 = mkPhase (-3) (-3) true false false false /\
  phase_run 36 phase0 = mkPhase 99 (-3) true false false false /\
  phase_run 37 phase0 = mkPhase 102 (-3) false true true false /\
  phase_run 72 phase0 = mkPhase 102 102 true false true true /\
  phase_run 106 phase0 = mkPhase 0 102 false true false true /\
  phase_run 133 phase0 = mkPhase 0 21 false true false true /\
  phase_run 134 phase0 = mkPhase 0 18 false true false true /\
  phase_run 140 phase0 = mkPhase 0 0 true false false false /\
  phase_run 136 (mkPhase 0 0 true false false false)
    = mkPhase 0 0 true false false false.
Proof. repeat split; vm_compute; reflexivity. Qed.

Lemma phase_run_period_from_140 k :
  phase_run (k + (136 + 140)) phase0 = phase_run (k + 140) phase0.
Proof.
  rewrite (phase_run_add k (136 + 140)), (phase_run_add k 140).
  rewrite (phase_run_add 136 140).
  destruct phase_run_values as (_ & _ & _ & _ & _ & _ & _ & E140 & E136).
  rewrite E140, E136. reflexivity.
Qed.

Lemma phase_run_period n :
  (140 <= n)%nat -> phase_run (n + 136) phase0 = phase_run n phase0.
Proof.
  intros H. pose proof (phase_run_period_from_140 (n - 140)) as E.
  replace (n - 140 + (136 + 140))%nat with (n + 136)%nat in E by lia.
  replace (n - 140 + 140)%nat with n in E by lia.
  exact E.
Qed.

Lemma phase_run_first_return n :
  (0 < n < 140)%nat -> at_origin (phase_run n phase0) = false.
Proof.
  intros H.
  assert (A : forallb (fun k => negb (at_origin (phase_run k phase0)))
                (seq 1 139) = true) by (vm_compute; reflexivity).
  rewrite forallb_forall in A. specialize (A n).
  rewrite in_seq in A. apply negb_true_iff, A. lia.
Qed.

Lemma at_origin_false p :
  at_origin p = false -> IZR (c_move_x p) <> 0 \/ IZR (c_move_y p) <> 0.
Proof.
  unfold at_origin. rewrite andb_false_iff, !Z.eqb_neq.
  intros [H | H]; [left | right]; intros E; apply H; now apply eq_IZR.
Qed.

(** C7, refuted as stated.  The enemy moves 3 units per update, so no run
    amounts to 400 units; after the 133 updates that make 399 units it is 21
    units from its start, after the 134 that make 402 units it is 18 units
    from it.  Nor is a side 100 long: the counter goes from 99 to 102 and it
    is 102 that triggers the turn. *)
Lemma patrol_not_closed_after_400 :
  ~ returns_after_units 400 patrol0 session0 /\
  en_y (patrol_run 133 patrol0 session0) = en_y patrol0 + 21 /\
  en_y (patrol_run 134 patrol0 session0) = en_y patrol0 + 18 /\
  phase_of (patrol_run 36 patrol0 session0)
    = mkPhase 99 (-3) true false false false /\
  phase_of (patrol_run 37 patrol0 session0)
    = mkPhase 102 (-3) false true true false.
Proof.
  destruct phase_run_values as (_ & E36 & E37 & _ & _ & E133 & E134 & _).
  split; [intros (n & H & _); lia |].
  destruct (patrol_position 133 session0 25 "blue") as [_ Y133].
  destruct (patrol_position 134 session0 25 "blue") as [_ Y134].
  fold patrol0 in Y133, Y134. rewrite E133 in Y133. rewrite E134 in Y134.
  split; [exact Y133 |]. split; [exact Y134 |].
  rewrite !patrol_run_phase. change (phase_of patrol0) with phase0.
  split; assumption.
Qed.

(** C7, as the code has it.  Every update moves the enemy 3 units along one
    axis and turns it when the counter of that axis, after the step, is at
    most 0 (going down) or at least 100 (going up).  From the constructor's
    state the corners of the path are at the offsets (-3,-3), (102,-3),
    (102,102) and (0,102); the enemy is back at its starting position after
    140 updates, 420 units of cumulative displacement, and at no update
    before; from then on its positions repeat every 136 updates. *)
Theorem patrol_closure (game : TurtleAdventureGame) (size : Z) (color : string) :
  let e0 := AroundHomeEnemy_init game size color in
  let pos n := (en_x (patrol_run n e0 game), en_y (patrol_run n e0 game)) in
  (forall (self : AroundHomeEnemy) g,
     let self' := fst (AroundHomeEnemy_update self g) in
     (negb (Bool.eqb (moving_x self') (moving_x self)) =
      if moving_x self
      then if move_left self then (move_x self - 3 <=? 0)%Z
           else (move_x self + 3 >=? 100)%Z
      else if move_up self then (move_y self - 3 <=? 0)%Z
           else (move_y self + 3 >=? 100)%Z) /\
     Rabs (en_x self' - en_x self) + Rabs (en_y self' - en_y self) = 3)
  /\ pos 2%nat = (en_x e0 - 3, en_y e0 - 3)
  /\ pos 37%nat = (en_x e0 + 102, en_y e0 - 3)
  /\ pos 72%nat = (en_x e0 + 102, en_y e0 + 102)
  /\ pos 106%nat = (en_x e0, en_y e0 + 102)
  /\ pos 140%nat = (en_x e0, en_y e0)
  /\ (forall n, (0 < n < 140)%nat -> pos n <> (en_x e0, en_y e0))
  /\ (forall n, (140 <= n)%nat -> pos (n + 136)%nat = pos n).
Proof.
  intros e0 pos.
  assert (P : forall n,
             pos n = (en_x e0 + IZR (c_move_x (phase_run n phase0)),
                      en_y e0 + IZR (c_move_y (phase_run n phase0)))).
  { intros n. unfold pos.
    destruct (patrol_position n game size color) as [Hx Hy].
    fold e0 in Hx, Hy. now rewrite Hx, Hy. }
  split.
  { intros self g self'. subst self'. unfold AroundHomeEnemy_update.
    cbn [fst].
    destruct (moving_x self) eqn:Mx, (move_left self), (move_up self);
      cbn [Bool.eqb];
      repeat match goal with
             | |- context [if ?c then _ else _] => destruct c
             end;
      cbn [en_x en_y around_base moving_x Enemy_set_x Enemy_set_y Bool.eqb negb];
      (split; [try reflexivity; rewrite Mx; reflexivity |]);
      unfold Rabs; repeat destruct (Rcase_abs _); lra. }
  destruct phase_run_values as (E2 & _ & E37 & E72 & E106 & _ & _ & E140 & _).
  refine (conj _ (conj _ (conj _ (conj _ (conj _ (conj _ _)))))).
  - rewrite P, E2. cbn [c_move_x c_move_y]. f_equal; lra.
  - rewrite P, E37. cbn [c_move_x c_move_y]. f_equal; lra.
  - rewrite P, E72. cbn [c_move_x c_move_y]. f_equal; lra.
  - rewrite P, E106. cbn [c_move_x c_move_y]. f_equal; lra.
  - rewrite P, E140. cbn [c_move_x c_move_y]. f_equal; lra.
  - intros n Hn. rewrite P. intros E. injection E as Ex Ey.
    destruct (at_origin_false _ (phase_run_first_return n Hn)); lra.
  - intros n Hn. rewrite !P, phase_run_period by exact Hn. reflexivity.
Qed.

(** Half way round, after 70 updates, the patrol enemy of the reference
    session is away from its start. *)
Lemma patrol_closure_witness :
  (en_x (patrol_run 70 patrol0 session0), en_y (patrol_run 70 patrol0 session0))
  <> (en_x patrol0, en_y patrol0).
Proof.
  destruct (patrol_closure session0 25 "blue")
    as (_ & _ & _ & _ & _ & _ & H & _).
  apply (H 70%nat). lia.
Defined.

(** ** The player *)

Lemma RawTurtle_distance_sqr t x y :
  RawTurtle_distance t x y * RawTurtle_distance t x y
  = (x - xcor t) * (x - xcor t) + (y - ycor t) * (y - ycor t).
Proof.
  unfold RawTurtle_distance. apply sqrt_sqrt.
  pose proof (Rle_0_sqr (x - xcor t)) as Hx.
  pose proof (Rle_0_sqr (y - ycor t)) as Hy.
  unfold Rsqr in Hx, Hy. lra.
Qed.

Lemma RawTurtle_distance_zero t : RawTurtle_distance t (xcor t) (ycor t) = 0.
Proof.
  unfold RawTurtle_distance.
  replace ((xcor t - xcor t) * (xcor t - xcor t)
           + (ycor t - ycor t) * (ycor t - ycor t)) with 0 by ring.
  apply sqrt_0.
Qed.

(** What [Player_update] does to the player and the waypoint does not depend
    on the test for home. *)
Lemma Player_update_motion (game : TurtleAdventureGame) :
  let w := waypoint game in
  let p := player game in
  let t' := step_towards (p_turtle p) (wp_x w) (wp_y w) (p_speed p) in
  let game' := Player_update game in
  (Waypoint_is_active w = true ->
   player game' = mkPlayer t' (p_speed p) /\
   waypoint game' =
     if Rltb (RawTurtle_distance t' (wp_x w) (wp_y w)) (p_speed p)
     then Waypoint_deactivate w else w) /\
  (Waypoint_is_active w = false ->
   player game' = p /\ waypoint game' = w).
Proof.
  intros w p t' game'. subst game'. unfold Player_update.
  fold p. split; intros Ha.
  - destruct (Home_contains (home game) (Player_x p) (Player_y p));
      cbn [waypoint game_over_win create_text stop set_is_running
             set_canvas_texts];
      fold w; rewrite Ha; fold (step_towards (p_turtle p) (wp_x w) (wp_y w)
                                  (p_speed p)); fold t';
      destruct (Rltb (RawTurtle_distance t' (wp_x w) (wp_y w)) (p_speed p));
      split; reflexivity.
  - destruct (Home_contains (home game) (Player_x p) (Player_y p));
      cbn [waypoint game_over_win create_text stop set_is_running
             set_canvas_texts];
      fold w; rewrite Ha; split; reflexivity.
Qed.

(** The signal of [Player_update]: the session is halted with the banner
    exactly when home contains the player's position. *)
Lemma Player_update_signal (game : TurtleAdventureGame) :
  let p := player game in
  let game' := Player_update game in
  (Home_contains (home game) (Player_x p) (Player_y p) = true ->
   is_running game' = false /\
   canvas_texts game' = canvas_texts game ++ ["You Win"%string]) /\
  (Home_contains (home game) (Player_x p) (Player_y p) = false ->
   is_running game' = is_running game /\
   canvas_texts game' = canvas_texts game).
Proof.
  intros p game'. subst game'. unfold Player_update. fold p.
  split; intros Hc; rewrite Hc;
    cbn [waypoint game_over_win create_text stop set_is_running
           set_canvas_texts];
    destruct (Waypoint_is_active (waypoint game));
    try destruct (Rltb _ _); split; reflexivity.
Qed.

Lemma session_at_home_contains :
  Home_contains (home session_at_home)
    (Player_x (player session_at_home)) (Player_y (player session_at_home))
  = true.
Proof.
  unfold Home_contains, session_at_home. player_pos.
  rewrite !andb_true_iff, !Rleb_true. lra.
Qed.

Lemma session_at_home_distance :
  RawTurtle_distance (p_turtle (player session_at_home)) 705 250 = 5.
Proof.
  unfold RawTurtle_distance, session_at_home. player_pos.
  replace ((705 - 700) * (705 - 700) + (250 - 250) * (250 - 250))
    with (5 * 5) by lra.
  apply sqrt_square. lra.
Qed.

Lemma session_at_home_moves :
  Player_x (player (Player_update session_at_home)) = 705.
Proof.
  destruct (Player_update_motion session_at_home) as [Hm _].
  destruct (Hm eq_refl) as [Hp _]. rewrite Hp.
  unfold Player_x, step_towards, RawTurtle_forward, RawTurtle_setheading,
    RawTurtle_towards.
  cbn [p_turtle xcor orient fst].
  change (wp_x (waypoint session_at_home)) with 705.
  change (wp_y (waypoint session_at_home)) with 250.
  rewrite session_at_home_distance.
  assert (E : Req_b 5 0 = false).
  { destruct (Req_b 5 0) eqn:E; [apply Req_b_true in E; lra | reflexivity]. }
  rewrite E. cbn [fst]. unfold session_at_home. player_pos. lra.
Qed.

(** C5, refuted as stated.  With the player on home's centre and the waypoint
    active at (705, 250), the update signals the win and still moves the
    player, from x = 700 to x = 705. *)
Lemma player_moves_although_home :
  ~ home_check_gates_movement session_at_home.
Proof.
  unfold home_check_gates_movement. intros H.
  destruct (H session_at_home_contains) as [Hx _].
  rewrite session_at_home_moves in Hx.
  unfold session_at_home in Hx. revert Hx. player_pos. lra.
Qed.

(** C5, as the code has it.  The update first tests whether home contains the
    player's position and signals the win exactly then: the session is halted
    and the banner drawn.  The test does not gate the movement, which follows
    in the same update: whenever the waypoint is active, also on a win, the
    player turns toward the waypoint and advances by its speed; when the
    waypoint is inactive the player stays. *)
Theorem Player_update_win_then_move (game : TurtleAdventureGame) :
  let w := waypoint game in
  let p := player game in
  let inside := Home_contains (home game) (Player_x p) (Player_y p) in
  let game' := Player_update game in
  (inside = true ->
   is_running game' = false /\
   canvas_texts game' = canvas_texts game ++ ["You Win"%string]) /\
  (inside = false ->
   is_running game' = is_running game /\
   canvas_texts game' = canvas_texts game) /\
  (Waypoint_is_active w = true ->
   p_turtle (player game') =
     RawTurtle_forward
       (RawTurtle_setheading (p_turtle p)
          (RawTurtle_towards (p_turtle p) (wp_x w) (wp_y w)))
       (p_speed p)) /\
  (Waypoint_is_active w = false -> player game' = p /\ waypoint game' = w).
Proof.
  intros w p inside game'.
  destruct (Player_update_signal game) as [S1 S2].
  destruct (Player_update_motion game) as [M1 M2].
  refine (conj S1 (conj S2 (conj _ M2))).
  intros Ha. destruct (M1 Ha) as [Hp _]. fold game' in Hp. rewrite Hp.
  reflexivity.
Qed.

(** On [session_at_home] the win is signalled and the turtle has moved. *)
Lemma Player_update_win_then_move_witness :
  is_running (Player_update session_at_home) = false /\
  p_turtle (player (Player_update session_at_home)) =
    step_towards (p_turtle (player session_at_home)) 705 250 5.
Proof.
  destruct (Player_update_win_then_move session_at_home) as (S1 & _ & M & _).
  split.
  - exact (proj1 (S1 session_at_home_contains)).
  - exact (M eq_refl).
Defined.

Lemma session_on_waypoint_distance :
  RawTurtle_distance (p_turtle (player session_on_waypoint))
    (wp_x (waypoint session_on_waypoint))
    (wp_y (waypoint session_on_waypoint)) = 0.
Proof.
  apply (RawTurtle_distance_zero (mkTurtle 50 (IZR (500 / 2)) (1, 0))).
Qed.

Lemma session_on_waypoint_run :
  Player_x (player (Player_update session_on_waypoint)) = 55 /\
  Waypoint_is_active (waypoint (Player_update session_on_waypoint)) = true.
Proof.
  destruct (Player_update_motion session_on_waypoint) as [Hm _].
  destruct (Hm eq_refl) as [Hp Hw].
  pose proof session_on_waypoint_distance as D.
  assert (T : step_towards (p_turtle (player session_on_waypoint))
                (wp_x (waypoint session_on_waypoint))
                (wp_y (waypoint session_on_waypoint))
                (p_speed (player session_on_waypoint))
              = mkTurtle (50 + 5 * 1) (250 + 5 * 0) (1, 0)).
  { unfold step_towards, RawTurtle_towards. rewrite D.
    rewrite (proj2 (Req_b_true 0 0) eq_refl). reflexivity. }
  rewrite T in Hp, Hw. split.
  - rewrite Hp. unfold Player_x. cbn [p_turtle xcor]. lra.
  - rewrite Hw.
    assert (E : RawTurtle_distance (mkTurtle (50 + 5 * 1) (250 + 5 * 0) (1, 0))
                  (wp_x (waypoint session_on_waypoint))
                  (wp_y (waypoint session_on_waypoint)) = 5).
    { unfold RawTurtle_distance. cbn [xcor ycor].
      change (wp_x (waypoint session_on_waypoint)) with 50.
      change (wp_y (waypoint session_on_waypoint)) with 250.
      replace ((50 - (50 + 5 * 1)) * (50 - (50 + 5 * 1))
               + (250 - (250 + 5 * 0)) * (250 - (250 + 5 * 0)))
        with (5 * 5) by lra.
      apply sqrt_square. lra. }
    rewrite E.
    change (p_speed (player session_on_waypoint)) with 5.
    rewrite (proj2 (Rltb_false 5 5)) by lra. reflexivity.
Qed.

(** C6, refuted as stated.  The distance to the waypoint is 0, within the
    speed 5, and home is far away; the turtle's heading toward its own
    position is 0, so the player steps to (55, 250), exactly 5 from the
    waypoint, and the test [distance < speed] leaves the waypoint active. *)
Lemma waypoint_stays_active_on_player :
  ~ waypoint_arrival session_on_waypoint.
Proof.
  unfold waypoint_arrival. intros H.
  destruct session_on_waypoint_run as [_ Hw].
  assert (Hc : Home_contains (home session_on_waypoint)
                 (Player_x (player session_on_waypoint))
                 (Player_y (player session_on_waypoint)) = false).
  { apply not_true_is_false. unfold Home_contains, session_on_waypoint.
    player_pos. rewrite !andb_true_iff, !Rleb_true. lra. }
  assert (Hd : RawTurtle_distance (p_turtle (player session_on_waypoint))
                 (wp_x (waypoint session_on_waypoint))
                 (wp_y (waypoint session_on_waypoint))
               <= p_speed (player session_on_waypoint)).
  { rewrite session_on_waypoint_distance.
    change (p_speed (player session_on_waypoint)) with 5. lra. }
  destruct (H eq_refl Hc Hd) as [Hoff _].
  rewrite Hw in Hoff. discriminate.
Qed.

Lemma step_towards_pos (t : RawTurtle) (x y speed : R) :
  RawTurtle_distance t x y <> 0 ->
  xcor (step_towards t x y speed)
    = xcor t + speed * ((x - xcor t) / RawTurtle_distance t x y) /\
  ycor (step_towards t x y speed)
    = ycor t + speed * ((y - ycor t) / RawTurtle_distance t x y).
Proof.
  intros Hd. unfold step_towards, RawTurtle_towards.
  destruct (Req_b (RawTurtle_distance t x y) 0) eqn:E.
  - apply Req_b_true in E. contradiction.
  - split; reflexivity.
Qed.

(** Within reach of the waypoint but not on it, the step overshoots it and
    ends [speed - d] beyond. *)
Lemma step_towards_distance (t : RawTurtle) (x y speed : R) :
  0 < RawTurtle_distance t x y <= speed ->
  RawTurtle_distance (step_towards t x y speed) x y
    = speed - RawTurtle_distance t x y.
Proof.
  intros [Hpos Hle].
  destruct (step_towards_pos t x y speed) as [Hx Hy]; [lra |].
  pose proof (RawTurtle_distance_sqr t x y) as Hsq.
  set (d := RawTurtle_distance t x y) in *.
  unfold RawTurtle_distance at 1. rewrite Hx, Hy.
  set (a := x - xcor t) in *. set (b := y - ycor t) in *.
  replace ((x - (xcor t + speed * (a / d))) * (x - (xcor t + speed * (a / d)))
           + (y - (ycor t + speed * (b / d))) * (y - (ycor t + speed * (b / d))))
    with ((a * a + b * b) * ((speed - d) / d) * ((speed - d) / d))
    by (unfold a, b; field; lra).
  rewrite <- Hsq.
  replace (d * d * ((speed - d) / d) * ((speed - d) / d))
    with ((speed - d) * (speed - d)) by (field; lra).
  apply sqrt_square. lra.
Qed.

(** C6, as the code has it.  For an active waypoint within reach of the
    player but not under it (0 < distance <= speed, home not containing the
    player), one update deactivates the waypoint and leaves the player on the
    half-line from its old position through the waypoint, [speed - distance]
    past the waypoint. *)
Theorem waypoint_arrival_within_reach (g : TurtleAdventureGame) :
  let p := player g in
  let w := waypoint g in
  let g' := Player_update g in
  let d := RawTurtle_distance (p_turtle p) (wp_x w) (wp_y w) in
  Waypoint_is_active w = true ->
  Home_contains (home g) (Player_x p) (Player_y p) = false ->
  0 < d <= p_speed p ->
  Waypoint_is_active (waypoint g') = false /\
  on_line_toward (Player_x p) (Player_y p) (wp_x w) (wp_y w)
    (Player_x (player g')) (Player_y (player g')) /\
  RawTurtle_distance (p_turtle (player g')) (wp_x w) (wp_y w) = p_speed p - d.
Proof.
  intros p w g' d Ha _ Hd.
  destruct (Player_update_motion g) as [Hm _].
  destruct (Hm Ha) as [Hp Hw]. fold g' p w in Hp, Hw.
  pose proof (step_towards_distance (p_turtle p) (wp_x w) (wp_y w) (p_speed p)
                Hd) as Hdist. fold d in Hdist.
  destruct (step_towards_pos (p_turtle p) (wp_x w) (wp_y w) (p_speed p))
    as [Hx Hy]; [fold d; lra |]. fold d in Hx, Hy.
  split; [| split].
  - rewrite Hw, Hdist.
    rewrite (proj2 (Rltb_true (p_speed p - d) (p_speed p))) by lra.
    reflexivity.
  - exists (p_speed p / d). rewrite Hp. unfold Player_x, Player_y.
    cbn [p_turtle]. rewrite Hx, Hy. split; [| split].
    + apply Rlt_le, Rdiv_lt_0_compat; lra.
    + field. lra.
    + field. lra.
  - rewrite Hp. cbn [p_turtle]. exact Hdist.
Qed.

Lemma session_near_waypoint_distance :
  RawTurtle_distance (p_turtle (player session_near_waypoint))
    (wp_x (waypoint session_near_waypoint))
    (wp_y (waypoint session_near_waypoint)) = 3.
Proof.
  unfold RawTurtle_distance, session_near_waypoint. player_pos.
  replace ((53 - 50) * (53 - 50) + (250 - 250) * (250 - 250))
    with (3 * 3) by lra.
  apply sqrt_square. lra.
Qed.

Lemma waypoint_arrival_within_reach_witness :
  Waypoint_is_active (waypoint (Player_update session_near_waypoint)) = false.
Proof.
  refine (proj1 (waypoint_arrival_within_reach session_near_waypoint
                   eq_refl _ _)).
  - apply not_true_is_false. unfold Home_contains, session_near_waypoint.
    player_pos. rewrite !andb_true_iff, !Rleb_true. lra.
  - rewrite session_near_waypoint_distance.
    change (p_speed (player session_near_waypoint)) with 5. lra.
Defined.

(** ** The spawn scheduler *)

(** *** Rules for running the computations *)

Lemma wp_ret {A} (a : A) Q w : Q a w -> wp (ret a) Q w.
Proof. intros H. exists a, w. split; [reflexivity | exact H]. Qed.

Lemma wp_bind {A B} (m : M A) (k : A -> M B) Q w :
  wp m (fun a w' => wp (k a) Q w') w -> wp (bind m k) Q w.
Proof.
  intros (a & w' & Hm & b & w'' & Hk & HQ).
  exists b, w''. unfold bind. rewrite Hm. split; assumption.
Qed.

Lemma wp_conseq {A} (m : M A) (Q Q' : A -> World -> Prop) w :
  wp m Q w -> (forall a w', Q a w' -> Q' a w') -> wp m Q' w.
Proof. intros (a & w' & Hm & HQ) H. exists a, w'. auto. Qed.

Lemma wp_get_game Q w : Q (game w) w -> wp get_game Q w.
Proof. intros H. exists (game w), w. split; [reflexivity | exact H]. Qed.

Lemma wp_modify_game f Q w :
  Q tt (mkWorld (f (game w)) (random w)) -> wp (modify_game f) Q w.
Proof. intros H. eexists _, _. split; [reflexivity | exact H]. Qed.

Lemma wp_randint a b Q w :
  (a <= b)%Z ->
  (forall v, (a <= v <= b)%Z -> Q v (advance w)) ->
  wp (randint a b) Q w.
Proof.
  intros Hab H. unfold randint.
  rewrite (proj2 (Z.leb_le a b) Hab).
  eexists _, _. split; [reflexivity |]. apply H.
  pose proof (Z.mod_pos_bound (Z.of_nat (draws (random w) (cursor (random w))))
                (b - a + 1)) as Hm.
  lia.
Qed.

Lemma wp_choice {A} (seq : list A) Q w :
  seq <> [] ->
  (forall v, In v seq -> Q v (advance w)) ->
  wp (choice seq) Q w.
Proof.
  intros Hne H. destruct seq as [| a l]; [contradiction |].
  unfold choice. eexists _, _. split; [reflexivity |]. apply H.
  apply nth_In. apply Nat.mod_upper_bound. discriminate.
Qed.

Lemma wp_new o Q w :
  Q (List.length (heap (game w)))
    (mkWorld (set_heap (game w) (heap (game w) ++ [o])) (random w)) ->
  wp (new o) Q w.
Proof. intros H. eexists _, _. split; [reflexivity | exact H]. Qed.

Lemma list_update_last {A} (l : list A) (a : A) (f : A -> A) :
  list_update (l ++ [a]) (List.length l) f = l ++ [f a].
Proof.
  induction l as [| b l IH]; [reflexivity |].
  cbn [app List.length list_update]. now rewrite IH.
Qed.

Lemma with_objects_id g : with_objects g (heap g) (elements g) = g.
Proof. destruct g. reflexivity. Qed.

Lemma wp_new_in o Q g h e rs :
  Q (List.length h) (mkWorld (with_objects g (h ++ [o]) e) rs) ->
  wp (new o) Q (mkWorld (with_objects g h e) rs).
Proof. intros H. apply wp_new. exact H. Qed.

Lemma wp_assign_x_in r v Q g h e rs :
  Q tt (mkWorld
          (with_objects g
             (list_update h r (map_base (fun b => Enemy_set_x b v))) e) rs) ->
  wp (assign_x r v) Q (mkWorld (with_objects g h e) rs).
Proof. intros H. apply wp_modify_game. exact H. Qed.

Lemma wp_assign_y_in r v Q g h e rs :
  Q tt (mkWorld
          (with_objects g
             (list_update h r (map_base (fun b => Enemy_set_y b v))) e) rs) ->
  wp (assign_y r v) Q (mkWorld (with_objects g h e) rs).
Proof. intros H. apply wp_modify_game. exact H. Qed.

Lemma wp_register_in r Q g h e rs :
  Q tt (mkWorld (with_objects g h (e ++ [REnemy r])) rs) ->
  wp (register r) Q (mkWorld (with_objects g h e) rs).
Proof. intros H. apply wp_modify_game. exact H. Qed.

Lemma wp_randint_in a b Q g d c :
  (a <= b)%Z ->
  (forall v, (a <= v <= b)%Z -> Q v (mkWorld g (mkRandom d (S c)))) ->
  wp (randint a b) Q (mkWorld g (mkRandom d c)).
Proof. intros Hab H. apply wp_randint; [exact Hab | exact H]. Qed.

Lemma wp_choice_in {A} (seq : list A) Q g d c :
  seq <> [] ->
  (forall v, In v seq -> Q v (mkWorld g (mkRandom d (S c)))) ->
  wp (choice seq) Q (mkWorld g (mkRandom d c)).
Proof. intros Hne H. apply wp_choice; [exact Hne | exact H]. Qed.

Lemma wp_get_game_in Q g rs :
  Q g (mkWorld g rs) -> wp get_game Q (mkWorld g rs).
Proof. intros H. apply wp_get_game. exact H. Qed.

Lemma home_with_objects g h e : home (with_objects g h e) = home g.
Proof. reflexivity. Qed.

Lemma AroundHomeEnemy_init_with_objects g h e size color :
  AroundHomeEnemy_init (with_objects g h e) size color
  = AroundHomeEnemy_init g size color.
Proof. reflexivity. Qed.

Ltac wp_step :=
  cbv beta;
  lazymatch goal with
  | |- wp (ret _) _ _ => apply wp_ret
  | |- wp get_game _ _ => apply wp_get_game_in
  | |- wp (new _) _ _ => apply wp_new_in
  | |- wp (assign_x _ _) _ _ => apply wp_assign_x_in
  | |- wp (assign_y _ _) _ _ => apply wp_assign_y_in
  | |- wp (register _) _ _ => apply wp_register_in
  | |- wp (randint _ _) _ _ => apply wp_randint_in; [lia | intros ? ?]
  | |- wp (choice _) _ _ => apply wp_choice_in; [discriminate | intros ? ?]
  | |- wp (bind _ _) _ _ => apply wp_bind
  end;
  rewrite ?list_update_last, ?AroundHomeEnemy_init_with_objects,
    ?home_with_objects.

Lemma world_eq g h h' e e' d c c' :
  h = h' -> e = e' -> c = c' ->
  mkWorld (with_objects g h e) (mkRandom d c)
  = mkWorld (with_objects g h' e') (mkRandom d c').
Proof. now intros -> -> ->. Qed.

Lemma near_intro x y vx vy e :
  en_x e = IZR vx -> en_y e = IZR vy ->
  (x - 10 <= vx <= x + 10)%Z -> (y - 10 <= vy <= y + 10)%Z -> near x y e.
Proof. intros. exists vx, vy. auto. Qed.

Lemma create_summon_run x y s g h e d c :
  wp (create_summon x y s)
    (fun _ w' =>
       exists dm sm,
         w' = mkWorld
                (with_objects g (h ++ [ODiagonal dm; OStraight sm])
                   (e ++ [REnemy (List.length h); REnemy (S (List.length h))]))
                (mkRandom d (7 + c)) /\
         diagonal_minion_of x y s dm /\ straight_minion_of x y s sm)
    (mkWorld (with_objects g h e) (mkRandom d c)).
Proof.
  unfold create_summon, DiagonalMinionEnemy_init, StraightMinionEnemy_init.
  repeat wp_step.
  cbn [map_base diagonal_base straight_base diagonal_speed straight_speed
         diagonal_summoner straight_summoner choosing1 choosing2 choosing
         Enemy_set_x Enemy_set_y en_x en_y en_size en_color].
  eexists _, _. split; [| split].
  - apply world_eq.
    + rewrite <- app_assoc. reflexivity.
    + rewrite <- app_assoc, length_app, Nat.add_1_r. reflexivity.
    + reflexivity.
  - unfold diagonal_minion_of. cbn. repeat split; try assumption.
    eapply near_intro; cbn; eauto.
  - unfold straight_minion_of. cbn. repeat split; try assumption.
    eapply near_intro; cbn; eauto.
Qed.

Lemma for_range_create_summon k x y s g : forall h e d c,
  wp (for_range k (create_summon x y s))
    (fun _ w' =>
       exists l,
         w' = mkWorld
                (with_objects g (h ++ l)
                   (e ++ map REnemy (seq (List.length h) (2 * k))))
                (mkRandom d (7 * k + c)) /\
         minion_pairs k x y s l)
    (mkWorld (with_objects g h e) (mkRandom d c)).
Proof.
  induction k as [| k IH]; intros h e d c.
  - cbn [for_range]. apply wp_ret. exists []. split; [| reflexivity].
    apply world_eq; cbn; now rewrite ?app_nil_r.
  - cbn [for_range]. apply wp_bind.
    eapply wp_conseq; [apply create_summon_run |].
    intros _ w1 (dm & sm & -> & Hdm & Hsm).
    eapply wp_conseq; [apply IH |].
    intros _ w2 (l & -> & Hl).
    exists (ODiagonal dm :: OStraight sm :: l). split.
    + apply world_eq.
      * rewrite <- app_assoc. reflexivity.
      * rewrite <- app_assoc, length_app. cbn [List.length].
        replace (2 * S k)%nat with (2 + 2 * k)%nat by lia.
        rewrite seq_app, map_app. cbn [seq map app].
        repeat f_equal; lia.
      * lia.
    + cbn [minion_pairs]. exists dm, sm, l. auto.
Qed.

Lemma create_enemy_run g h e d c :
  wp create_enemy
    (fun _ w' =>
       exists r p a s sx sy l,
         w' = mkWorld
                (after
                   (with_objects g
                      (h ++ OShaking r :: OPursuit p :: OAroundHome a
                         :: OSummon s :: l)
                      (e ++ map REnemy (seq (List.length h) 16)))
                   3000 CreateEnemy)
                (mkRandom d (48 + c)) /\
         firing g h r p a s sx sy l)
    (mkWorld (with_objects g h e) (mkRandom d c)).
Proof.
  unfold create_enemy.
  repeat wp_step.
  eapply wp_conseq; [apply for_range_create_summon |].
  intros _ w1 (l & -> & Hl).
  apply wp_modify_game. cbn [game random].
  cbn [map_base ShakingEnemy_init PursuitEnemy_init SummonEnemy_init
         AroundHomeEnemy_init shaking_base pursuit_base around_base
         summon_base shaking_speed pursuit_speed summon_speed
         move_x move_y moving_x moving_y move_left move_up
         Enemy_set_x Enemy_set_y en_x en_y en_size en_color] in *.
  rewrite !length_app in Hl. cbn [List.length] in Hl.
  replace (Datatypes.length h + 1 + 1 + 1)%nat
    with (Datatypes.length h + 3)%nat in Hl by lia.
  eexists _, _, _, _, _, _, l. split.
  - f_equal.
    + f_equal. unfold with_objects. f_equal.
      * f_equal. rewrite <- !app_assoc. reflexivity.
      * rewrite <- !app_assoc, !length_app. cbn [List.length].
        change 16%nat with (4 + 12)%nat.
        rewrite seq_app, map_app. cbn [seq map app Nat.mul Nat.add].
        repeat f_equal; lia.
  - unfold firing, placed_at_random.
    cbn [shaking_base pursuit_base around_base summon_base shaking_speed
           pursuit_speed summon_speed en_x en_y en_size en_color].
    repeat split; try eassumption; try reflexivity; try lia.
    + exists v, v0. auto.
    + exists v1, v2. auto.
Qed.

Lemma minion_pairs_count k x y s l :
  minion_pairs k x y s l ->
  List.length l = (2 * k)%nat /\
  count is_diagonal l = k /\ count is_straight l = k /\
  count is_shaking l = O /\ count is_pursuit l = O /\
  count is_around_home l = O /\ count is_summon l = O.
Proof.
  revert l. induction k as [| k IH]; intros l H.
  - cbn in H. subst l. repeat split.
  - destruct H as (dm & sm & l' & -> & _ & _ & H').
    destruct (IH l' H') as (L & D & S & R1 & R2 & R3 & R4).
    unfold count in *. cbn [filter is_diagonal is_straight is_shaking
                              is_pursuit is_around_home is_summon List.length].
    repeat split; lia.
Qed.

(** One firing, from any world. *)
Lemma create_enemy_spec (w : World) :
  exists r p a s sx sy l,
    create_enemy w =
      Some (tt,
            mkWorld
              (after
                 (spawn (game w)
                    (OShaking r :: OPursuit p :: OAroundHome a :: OSummon s
                       :: l))
                 3000 CreateEnemy)
              (mkRandom (draws (random w)) (48 + cursor (random w)))) /\
    firing (game w) (heap (game w)) r p a s sx sy l.
Proof.
  destruct w as [g [d c]].
  pose proof (create_enemy_run g (heap g) (elements g) d c) as H.
  rewrite with_objects_id in H.
  destruct H as ([] & w' & Hrun & r & p & a & s & sx & sy & l & -> & Hf).
  exists r, p, a, s, sx, sy, l. split; [| exact Hf].
  rewrite Hrun. cbn [game random draws cursor].
  destruct Hf as (_ & _ & _ & _ & _ & _ & _ & _ & _ & _ & _ & _ & _ & Hl).
  apply minion_pairs_count in Hl. destruct Hl as (L & _).
  unfold spawn. cbn [List.length]. rewrite L. reflexivity.
Qed.




(** The reference session is the one its constructor returns. *)
Lemma session0_constructed :
  TurtleAdventureGame_init 800 500 1 = Some session0.
Proof. reflexivity. Qed.

(** The constructor raises on a screen of width 1 or of height 1: the
    world coordinates then have a span of 0. *)
Lemma TurtleAdventureGame_init_raises (sw sh lvl : Z) :
  sw = 1%Z \/ sh = 1%Z -> TurtleAdventureGame_init sw sh lvl = None.
Proof.
  intros H. unfold TurtleAdventureGame_init, init_game, setworldcoordinates.
  cbn [screen_width screen_height TurtleAdventureGame_attributes].
  replace ((sw - 1 - 0 =? 0) || (0 - (sh - 1) =? 0))%Z with true;
    [reflexivity |].
  symmetry. apply orb_true_iff. rewrite !Z.eqb_eq. lia.
Qed.

(** On every other screen it returns the game that [init_game] sets up. *)
Lemma TurtleAdventureGame_init_returns (sw sh lvl : Z) :
  sw <> 1%Z -> sh <> 1%Z ->
  exists g,
    TurtleAdventureGame_init sw sh lvl = Some g /\
    elements g = [RWaypoint; RHome; RPlayer] /\
    heap g = [] /\ enemies g = [] /\ is_running g = false /\
    Waypoint_is_active (waypoint g) = false /\
    home g = mkHome (IZR (sw - 100)) (IZR (sh / 2)) 20 /\
    Player_x (player g) = 50 /\ Player_y (player g) = IZR (sh / 2) /\
    p_speed (player g) = 5 /\
    now g = 0%Z /\ timers g = [(100%Z, CreateEnemy)].
Proof.
  intros Hw Hh. unfold TurtleAdventureGame_init, init_game, setworldcoordinates.
  cbn [screen_width screen_height TurtleAdventureGame_attributes].
  replace ((sw - 1 - 0 =? 0) || (0 - (sh - 1) =? 0))%Z with false.
  - eexists. split; [reflexivity |]. repeat split.
  - symmetry. apply orb_false_iff. rewrite !Z.eqb_neq. lia.
Qed.



(** C3.  [add_enemy] puts an enemy on the enemy list and in the element
    container, but [create_enemy] registers what it creates through
    [add_element] alone: a firing extends the container by the sixteen new
    references and leaves the enemy list as it was, empty in a session that
    has just been set up. *)
Theorem create_enemy_bypasses_enemy_list (w : World) :
  (forall g r,
     enemies (add_enemy g r) = enemies g ++ [r] /\
     elements (add_enemy g r) = elements g ++ [REnemy r])
  /\
  (exists w',
     create_enemy w = Some (tt, w') /\
     enemies (game w') = enemies (game w) /\
     elements (game w')
       = elements (game w)
         ++ map REnemy (seq (List.length (heap (game w))) 16) /\
     List.length (heap (game w')) = (List.length (heap (game w)) + 16)%nat)
  /\
  (exists w',
     create_enemy world0 = Some (tt, w') /\
     enemies (game w') = [] /\
     elements (game w')
       = [RWaypoint; RHome; RPlayer] ++ map REnemy (seq 0 16)).
Proof.
  assert (G : forall w0 : World,
             exists w',
               create_enemy w0 = Some (tt, w') /\
               enemies (game w') = enemies (game w0) /\
               elements (game w')
                 = elements (game w0)
                   ++ map REnemy (seq (List.length (heap (game w0))) 16) /\
               List.length (heap (game w'))
                 = (List.length (heap (game w0)) + 16)%nat).
  { intros w0.
    destruct (create_enemy_spec w0)
      as (r & p & a & s & sx & sy & l & Hrun & Hf).
    destruct Hf as (_ & _ & _ & _ & _ & _ & _ & _ & _ & _ & _ & _ & _ & Hl).
    apply minion_pairs_count in Hl. destruct Hl as (L & _).
    eexists. split; [exact Hrun |]. cbn [game].
    split; [reflexivity |]. split.
    - unfold after, spawn. cbn [elements set_timers set_elements List.length].
      rewrite L. reflexivity.
    - unfold after, spawn. cbn [heap set_timers set_elements set_heap].
      rewrite length_app. cbn [List.length]. rewrite L. reflexivity. }
  split; [intros g r; split; reflexivity |]. split; [apply G |].
  destruct (G world0) as (w' & Hrun & He & Hel & _).
  exists w'. split; [exact Hrun |]. split; [exact He | exact Hel].
Qed.

(** ** Terminal transitions *)

Lemma for_range_tick_halted n g rs :
  is_running g = false ->
  for_range n tick (mkWorld g rs) = Some (tt, mkWorld g rs).
Proof.
  intros H. induction n as [| n IH]; [reflexivity |].
  cbn [for_range]. unfold bind at 1, tick at 1, bind, get_game.
  cbn [game]. rewrite H. cbn [ret]. exact IH.
Qed.

(** A tick of a running session does step the container: with the player on
    home and the waypoint active, the tick is the player's update. *)
Lemma tick_running_steps rs :
  tick (mkWorld (start session_at_home) rs)
  = Some (tt, mkWorld (Player_update (start session_at_home)) rs).
Proof. reflexivity. Qed.

(** C9.  After [game_over_win] or [game_over_lose], invoking either of them
    again changes neither the player nor any enemy object, the session stays
    halted, and any number of frame ticks leaves the whole world as it is.
    The transitions themselves move nothing either. *)
Theorem game_over_is_terminal (g : TurtleAdventureGame) (rs : RandomState) :
  let gw := game_over_win g in
  let gl := game_over_lose g in
  (frozen g gw /\ frozen g gl) /\
  (frozen gw (game_over_win gw) /\ frozen gw (game_over_lose gw) /\
   frozen gl (game_over_win gl) /\ frozen gl (game_over_lose gl)) /\
  (is_running gw = false /\ is_running gl = false /\
   is_running (game_over_win gw) = false /\
   is_running (game_over_lose gw) = false /\
   is_running (game_over_win gl) = false /\
   is_running (game_over_lose gl) = false) /\
  (forall n,
     for_range n tick (mkWorld gw rs) = Some (tt, mkWorld gw rs) /\
     for_range n tick (mkWorld gl rs) = Some (tt, mkWorld gl rs) /\
     for_range n tick (mkWorld (game_over_win gw) rs)
       = Some (tt, mkWorld (game_over_win gw) rs) /\
     for_range n tick (mkWorld (game_over_lose gl) rs)
       = Some (tt, mkWorld (game_over_lose gl) rs)).
Proof.
  intros gw gl. unfold frozen.
  split; [repeat split |]. split; [repeat split |]. split; [repeat split |].
  intros n. repeat split; apply for_range_tick_halted; reflexivity.
Qed.

(** * Further properties *)

(** ** Further properties: home, set-up and the player *)

Lemma Rabs_le_iff a b : Rabs a <= b <-> - b <= a <= b.
Proof.
  unfold Rabs. destruct (Rcase_abs a); split; intros; lra.
Qed.

(** X1. [Home.contains] is the closed square of side [size] around the
    home's position: a point is contained exactly when it is no further than
    half the size from the centre on each axis, borders included.  The centre
    itself is contained exactly when the size is not negative, and a home of
    negative size contains no point at all. *)
Theorem Home_contains_closed_box (self : Home) (x y : R) :
  (Home_contains self x y = true <->
   Rabs (x - home_x self) <= IZR (home_size self) / 2 /\
   Rabs (y - home_y self) <= IZR (home_size self) / 2) /\
  (Home_contains self (home_x self) (home_y self) = true <->
   (0 <= home_size self)%Z) /\
  ((home_size self < 0)%Z -> Home_contains self x y = false).
Proof.
  assert (E : forall u v, Home_contains self u v = true <->
            Rabs (u - home_x self) <= IZR (home_size self) / 2 /\
            Rabs (v - home_y self) <= IZR (home_size self) / 2).
  { intros u v. unfold Home_contains. cbv zeta.
    rewrite andb_true_4, !Rleb_true, !Rabs_le_iff. lra. }
  split; [apply E |]. split.
  - rewrite E. replace (home_x self - home_x self) with 0 by ring.
    replace (home_y self - home_y self) with 0 by ring. rewrite Rabs_R0.
    split.
    + intros [H _]. apply le_IZR. lra.
    + intros H. apply IZR_le in H. lra.
  - intros H. apply not_true_is_false. rewrite E. intros [H1 _].
    apply IZR_lt in H. pose proof (Rabs_pos (x - home_x self)). lra.
Qed.

Lemma Home_contains_closed_box_witness :
  Home_contains (mkHome 700 250 (-20)) 700 250 = false.
Proof.
  apply (proj2 (proj2 (Home_contains_closed_box (mkHome 700 250 (-20)) 700 250))).
  simpl. lia.
Defined.



Lemma sqrt_square_abs a : sqrt (a * a) = Rabs a.
Proof. apply (sqrt_Rsqr_abs a). Qed.

Lemma RawTurtle_distance_zero_inv t x y :
  RawTurtle_distance t x y = 0 -> x = xcor t /\ y = ycor t.
Proof.
  intros H. pose proof (RawTurtle_distance_sqr t x y) as Hs.
  rewrite H in Hs.
  pose proof (Rle_0_sqr (x - xcor t)) as Hx.
  pose proof (Rle_0_sqr (y - ycor t)) as Hy.
  unfold Rsqr in Hx, Hy.
  assert (Ex : (x - xcor t) * (x - xcor t) = 0) by lra.
  assert (Ey : (y - ycor t) * (y - ycor t) = 0) by lra.
  apply Rmult_integral in Ex, Ey. lra.
Qed.

(** The distance left to the point after one step toward it. *)
Lemma step_towards_remaining (t : RawTurtle) (x y speed : R) :
  let d := RawTurtle_distance t x y in
  RawTurtle_distance (step_towards t x y speed) x y =
  if Req_b d 0 then Rabs speed else Rabs (d - speed).
Proof.
  intros d. destruct (Req_b d 0) eqn:E.
  - apply Req_b_true in E. destruct (RawTurtle_distance_zero_inv t x y E)
      as [-> ->].
    unfold step_towards, RawTurtle_towards.
    rewrite RawTurtle_distance_zero, (proj2 (Req_b_true 0 0) eq_refl).
    unfold RawTurtle_distance, RawTurtle_forward, RawTurtle_setheading.
    cbn [xcor ycor orient fst snd].
    replace ((xcor t - (xcor t + speed * 1)) * (xcor t - (xcor t + speed * 1))
             + (ycor t - (ycor t + speed * 0)) * (ycor t - (ycor t + speed * 0)))
      with (speed * speed) by ring.
    apply sqrt_square_abs.
  - assert (Hd : d <> 0).
    { intros H. apply (proj2 (Req_b_true d 0)) in H. congruence. }
    destruct (step_towards_pos t x y speed Hd) as [Hx Hy].
    pose proof (RawTurtle_distance_sqr t x y) as Hsq. fold d in Hx, Hy, Hsq.
    unfold RawTurtle_distance at 1. rewrite Hx, Hy.
    set (a := x - xcor t) in *. set (b := y - ycor t) in *.
    replace ((x - (xcor t + speed * (a / d))) * (x - (xcor t + speed * (a / d)))
             + (y - (ycor t + speed * (b / d))) * (y - (ycor t + speed * (b / d))))
      with ((a * a + b * b) * ((d - speed) / d) * ((d - speed) / d))
      by (unfold a, b; field; exact Hd).
    rewrite <- Hsq.
    replace (d * d * ((d - speed) / d) * ((d - speed) / d))
      with ((d - speed) * (d - speed)) by (field; exact Hd).
    apply sqrt_square_abs.
Qed.

(** The length of one step. *)
Lemma step_towards_length (t : RawTurtle) (x y speed : R) :
  RawTurtle_distance t (xcor (step_towards t x y speed))
    (ycor (step_towards t x y speed)) = Rabs speed.
Proof.
  set (d := RawTurtle_distance t x y).
  destruct (Req_dec_T d 0) as [E | Hd].
  - unfold step_towards, RawTurtle_towards. fold d.
    rewrite (proj2 (Req_b_true d 0) E).
    unfold RawTurtle_distance, RawTurtle_forward, RawTurtle_setheading.
    cbn [xcor ycor orient fst snd].
    replace ((xcor t + speed * 1 - xcor t) * (xcor t + speed * 1 - xcor t)
             + (ycor t + speed * 0 - ycor t) * (ycor t + speed * 0 - ycor t))
      with (speed * speed) by ring.
    apply sqrt_square_abs.
  - destruct (step_towards_pos t x y speed Hd) as [Hx Hy].
    pose proof (RawTurtle_distance_sqr t x y) as Hsq. fold d in Hx, Hy, Hsq.
    unfold RawTurtle_distance. rewrite Hx, Hy.
    set (a := x - xcor t) in *. set (b := y - ycor t) in *.
    replace ((xcor t + speed * (a / d) - xcor t)
             * (xcor t + speed * (a / d) - xcor t)
             + (ycor t + speed * (b / d) - ycor t)
               * (ycor t + speed * (b / d) - ycor t))
      with ((a * a + b * b) * (speed / d) * (speed / d))
      by (field; exact Hd).
    rewrite <- Hsq.
    replace (d * d * (speed / d) * (speed / d)) with (speed * speed)
      by (field; exact Hd).
    apply sqrt_square_abs.
Qed.

(** X3. One [Player.update] with the waypoint active at distance [d] of the
    player: the waypoint is deactivated exactly when [0 < d < 2 * speed]
    (the test is made after the step, on the distance that remains), the
    player has moved by exactly [|speed|] whatever the distance (it overshoots
    a waypoint closer than one step), and the waypoint's position is kept. *)
Theorem waypoint_deactivated_iff (g : TurtleAdventureGame) :
  let p := player g in
  let w := waypoint g in
  let g' := Player_update g in
  let d := RawTurtle_distance (p_turtle p) (wp_x w) (wp_y w) in
  Waypoint_is_active w = true ->
  (Waypoint_is_active (waypoint g') = false <-> 0 < d < 2 * p_speed p) /\
  RawTurtle_distance (p_turtle p) (Player_x (player g')) (Player_y (player g'))
    = Rabs (p_speed p) /\
  wp_x (waypoint g') = wp_x w /\ wp_y (waypoint g') = wp_y w.
Proof.
  intros p w g' d Ha.
  destruct (Player_update_motion g) as [Hm _].
  destruct (Hm Ha) as [Hp Hw]. fold g' p w in Hp, Hw.
  pose proof (step_towards_remaining (p_turtle p) (wp_x w) (wp_y w) (p_speed p))
    as Hr. cbv zeta in Hr. fold d in Hr.
  pose proof (RawTurtle_distance_sqr (p_turtle p) (wp_x w) (wp_y w)) as Hsq.
  assert (Hd0 : 0 <= d) by apply sqrt_pos.
  split; [| split].
  - rewrite Hw, Hr.
    destruct (Req_b d 0) eqn:E.
    + apply Req_b_true in E.
      rewrite (proj2 (Rltb_false (Rabs (p_speed p)) (p_speed p)))
        by apply Rle_abs.
      rewrite Ha. split; [discriminate | lra].
    + assert (Hd : d <> 0).
      { intros H. apply (proj2 (Req_b_true d 0)) in H. congruence. }
      destruct (Rltb (Rabs (d - p_speed p)) (p_speed p)) eqn:L.
      * apply Rltb_true in L. split; [intros _ | reflexivity].
        unfold Rabs in L. destruct (Rcase_abs (d - p_speed p)); lra.
      * apply Rltb_false in L. rewrite Ha. split; [discriminate |].
        intros H. exfalso. unfold Rabs in L.
        destruct (Rcase_abs (d - p_speed p)); lra.
  - rewrite Hp. unfold Player_x, Player_y. cbn [p_turtle].
    apply step_towards_length.
  - rewrite Hw. destruct (Rltb _ _); split; reflexivity.
Qed.

(** The reference session after a click 7 units to the right of the player:
    beyond the speed 5, within twice the speed. *)
Lemma waypoint_deactivated_iff_witness :
  Waypoint_is_active (waypoint (Player_update (click session0 57 250))) = false.
Proof.
  apply (proj1 (waypoint_deactivated_iff (click session0 57 250) eq_refl)).
  assert (E : RawTurtle_distance (p_turtle (player (click session0 57 250)))
                (wp_x (waypoint (click session0 57 250)))
                (wp_y (waypoint (click session0 57 250))) = 7).
  { unfold RawTurtle_distance, click. player_pos.
    replace ((57 - 50) * (57 - 50) + (250 - 250) * (250 - 250))
      with (7 * 7) by lra.
    apply sqrt_square. lra. }
  rewrite E. change (p_speed (player (click session0 57 250))) with 5. lra.
Defined.

(** What [Player_update] leaves alone. *)
Lemma Player_update_frame (g : TurtleAdventureGame) :
  let g' := Player_update g in
  home g' = home g /\ heap g' = heap g /\ elements g' = elements g /\
  enemies g' = enemies g /\ timers g' = timers g /\ now g' = now g /\
  p_speed (player g') = p_speed (player g).
Proof.
  unfold Player_update.
  destruct (Home_contains _ _ _);
    cbn [waypoint game_over_win create_text stop set_is_running
           set_canvas_texts];
    destruct (Waypoint_is_active (waypoint g));
    try destruct (Rltb _ _); repeat split.
Qed.

(** One step of the walk, with the waypoint at least two steps away. *)
Lemma Player_update_walk (g : TurtleAdventureGame) :
  let p := player g in
  let w := waypoint g in
  let g' := Player_update g in
  let d := RawTurtle_distance (p_turtle p) (wp_x w) (wp_y w) in
  Waypoint_is_active w = true -> 0 < p_speed p -> 2 * p_speed p <= d ->
  waypoint g' = w /\ p_speed (player g') = p_speed p /\
  Player_x (player g') = Player_x p + p_speed p / d * (wp_x w - Player_x p) /\
  Player_y (player g') = Player_y p + p_speed p / d * (wp_y w - Player_y p) /\
  RawTurtle_distance (p_turtle (player g')) (wp_x w) (wp_y w) = d - p_speed p.
Proof.
  intros p w g' d Ha Hs Hd.
  destruct (Player_update_motion g) as [Hm _].
  destruct (Hm Ha) as [Hp Hw]. fold g' p w in Hp, Hw.
  pose proof (step_towards_remaining (p_turtle p) (wp_x w) (wp_y w) (p_speed p))
    as Hr. cbv zeta in Hr. fold d in Hr.
  assert (Hd0 : d <> 0) by lra.
  assert (E : Req_b d 0 = false).
  { destruct (Req_b d 0) eqn:E; [apply Req_b_true in E; lra | reflexivity]. }
  rewrite E in Hr. rewrite (Rabs_pos_eq (d - p_speed p)) in Hr by lra.
  destruct (step_towards_pos (p_turtle p) (wp_x w) (wp_y w) (p_speed p) Hd0)
    as [Hx Hy]. fold d in Hx, Hy.
  split; [| split; [| split; [| split]]].
  - rewrite Hw, Hr. rewrite (proj2 (Rltb_false _ _)) by lra. reflexivity.
  - rewrite Hp. reflexivity.
  - rewrite Hp. unfold Player_x. cbn [p_turtle]. rewrite Hx. field. exact Hd0.
  - rewrite Hp. unfold Player_y. cbn [p_turtle]. rewrite Hy. field. exact Hd0.
  - rewrite Hp. cbn [p_turtle]. exact Hr.
Qed.

(** X4. A player with a positive speed and an active waypoint at distance
    [d] walks a straight line: as long as [(n + 1) * speed <= d], after [n]
    updates it is at [P + n * speed / d * (W - P)], at distance
    [d - n * speed] of the waypoint, and the waypoint is still the same
    active one. *)
Theorem Player_walks_straight (n : nat) : forall g : TurtleAdventureGame,
  let p := player g in
  let w := waypoint g in
  let g' := Player_run n g in
  let d := RawTurtle_distance (p_turtle p) (wp_x w) (wp_y w) in
  Waypoint_is_active w = true -> 0 < p_speed p ->
  (INR n + 1) * p_speed p <= d ->
  waypoint g' = w /\
  Player_x (player g')
    = Player_x p + INR n * p_speed p / d * (wp_x w - Player_x p) /\
  Player_y (player g')
    = Player_y p + INR n * p_speed p / d * (wp_y w - Player_y p) /\
  RawTurtle_distance (p_turtle (player g')) (wp_x w) (wp_y w)
    = d - INR n * p_speed p.
Proof.
  induction n as [| n IH]; intros g p w g' d Ha Hs Hd.
  - subst g'. cbn [Player_run INR]. fold p w d.
    assert (d <> 0) by (cbn [INR] in Hd; lra).
    repeat split; try (field; assumption); try lra.
  - rewrite S_INR in Hd. pose proof (pos_INR n) as Hn.
    assert (H2 : 2 * p_speed p <= d) by nra.
    destruct (Player_update_walk g Ha Hs H2) as (Hw & Hsp & Hx & Hy & Hr).
    fold p w d in Hw, Hsp, Hx, Hy, Hr.
    assert (Ha1 : Waypoint_is_active (waypoint (Player_update g)) = true)
      by (rewrite Hw; exact Ha).
    assert (Hs1 : 0 < p_speed (player (Player_update g)))
      by (rewrite Hsp; exact Hs).
    assert (Hd1 : (INR n + 1) * p_speed (player (Player_update g))
                  <= RawTurtle_distance (p_turtle (player (Player_update g)))
                       (wp_x (waypoint (Player_update g)))
                       (wp_y (waypoint (Player_update g))))
      by (rewrite Hw, Hsp, Hr; lra).
    destruct (IH (Player_update g) Ha1 Hs1 Hd1) as (Iw & Ix & Iy & Ir).
    rewrite ?Hw in Iw, Ix, Iy, Ir. rewrite ?Hr in Ix, Iy, Ir.
    rewrite Hsp in Ix, Iy, Ir.
    subst g'. cbn [Player_run]. rewrite S_INR.
    assert (d <> 0) by nra. assert (d - p_speed p <> 0) by nra.
    split; [exact Iw |]. clearbody d. split; [| split].
    + rewrite Ix, Hx. field. split; assumption.
    + rewrite Iy, Hy. field. split; assumption.
    + rewrite Ir. ring.
Qed.

Lemma session0_click_distance (x : R) :
  50 <= x ->
  RawTurtle_distance (p_turtle (player (click session0 x 250)))
    (wp_x (waypoint (click session0 x 250)))
    (wp_y (waypoint (click session0 x 250))) = x - 50.
Proof.
  intros H. unfold RawTurtle_distance, click. player_pos.
  replace ((x - 50) * (x - 50) + (250 - 250) * (250 - 250))
    with ((x - 50) * (x - 50)) by ring.
  apply sqrt_square. lra.
Qed.

(** The scenario of the reference session: a click at (780, 250) and 100
    updates take the player from x = 50 to x = 550. *)
Lemma Player_walks_straight_witness :
  Player_x (player (Player_run 100 (click session0 780 250)))
  = 50 + INR 100 * 5 / (780 - 50) * (780 - 50).
Proof.
  pose proof (Player_walks_straight 100 (click session0 780 250)) as H.
  cbv zeta in H. rewrite session0_click_distance in H by lra.
  change (p_speed (player (click session0 780 250))) with 5 in H.
  refine (proj1 (proj2 (H eq_refl _ _))).
  - lra.
  - rewrite INR_IZR_INZ. change (Z.of_nat 100) with 100%Z. lra.
Defined.

(** X5. A win is seen one update late.  [Player.update] tests the home
    before it moves: the update that takes the player from outside the home
    to inside leaves the game running and the canvas as it was; the next
    update of the player stops the game and writes "You Win". *)
Theorem win_detected_on_next_update (g : TurtleAdventureGame) :
  let g1 := Player_update g in
  let g2 := Player_update g1 in
  Home_contains (home g) (Player_x (player g)) (Player_y (player g)) = false ->
  Home_contains (home g) (Player_x (player g1)) (Player_y (player g1)) = true ->
  (is_running g1 = is_running g /\ canvas_texts g1 = canvas_texts g) /\
  (is_running g2 = false /\
   canvas_texts g2 = canvas_texts g ++ ["You Win"%string]).
Proof.
  intros g1 g2 H0 H1.
  destruct (Player_update_signal g) as [_ S0].
  destruct (S0 H0) as [R1 T1]. fold g1 in R1, T1.
  destruct (Player_update_frame g) as (Hh & _). fold g1 in Hh.
  destruct (Player_update_signal g1) as [S1 _].
  rewrite Hh in S1. destruct (S1 H1) as [R2 T2]. fold g2 in R2, T2.
  split; [split; assumption |]. split; [exact R2 |].
  rewrite T2, T1. reflexivity.
Qed.

Lemma session_before_home_step :
  Player_x (player (Player_update session_before_home)) = 691 /\
  Player_y (player (Player_update session_before_home)) = 250.
Proof.
  assert (D : RawTurtle_distance (p_turtle (player session_before_home))
                (wp_x (waypoint session_before_home))
                (wp_y (waypoint session_before_home)) = 94).
  { unfold RawTurtle_distance, session_before_home, click. player_pos.
    replace ((780 - 686) * (780 - 686) + (250 - 250) * (250 - 250))
      with (94 * 94) by lra.
    apply sqrt_square. lra. }
  destruct (Player_update_motion session_before_home) as [Hm _].
  destruct (Hm eq_refl) as [Hp _]. rewrite Hp.
  destruct (step_towards_pos (p_turtle (player session_before_home))
              (wp_x (waypoint session_before_home))
              (wp_y (waypoint session_before_home))
              (p_speed (player session_before_home))) as [Hx Hy].
  { rewrite D. lra. }
  unfold Player_x, Player_y. cbn [p_turtle]. rewrite Hx, Hy, D.
  unfold session_before_home, click. player_pos. lra.
Qed.

Lemma win_detected_on_next_update_witness :
  is_running (Player_update (Player_update session_before_home)) = false.
Proof.
  refine (proj1 (proj2 (win_detected_on_next_update session_before_home _ _))).
  - apply not_true_is_false. unfold Home_contains, session_before_home, click.
    player_pos. rewrite andb_true_4, !Rleb_true. lra.
  - destruct session_before_home_step as [-> ->].
    unfold Home_contains, session_before_home, click. player_pos.
    rewrite andb_true_4, !Rleb_true. lra.
Defined.

(** X6. Winning does not end the frame.  With the player standing inside
    the home and a pursuer of positive size on the player's position, the
    player's update followed by the pursuer's leaves the game stopped with
    both texts on the canvas: "You Win" and then "You Lose". *)
Theorem win_and_lose_in_one_frame (g : TurtleAdventureGame) (e : PursuitEnemy) :
  let g1 := Player_update g in
  let g2 := snd (PursuitEnemy_update e g1) in
  Waypoint_is_active (waypoint g) = false ->
  Home_contains (home g) (Player_x (player g)) (Player_y (player g)) = true ->
  en_x e = Player_x (player g) -> en_y e = Player_y (player g) ->
  (0 < en_size e)%Z ->
  is_running g2 = false /\
  canvas_texts g2 = canvas_texts g ++ ["You Win"; "You Lose"]%string.
Proof.
  intros g1 g2 Ha Hc Hx Hy Hsz.
  destruct (Player_update_signal g) as [S1 _]. destruct (S1 Hc) as [_ T1].
  destruct (Player_update_motion g) as [_ M]. destruct (M Ha) as [Hp _].
  fold g1 in T1, Hp.
  assert (Hhit : hits_player
                   (fst (PursuitEnemy_update e g1)) g1 = true).
  { unfold PursuitEnemy_update. cbn [fst pursuit_base]. rewrite Hp.
    unfold Rgtb. rewrite Hx, Hy.
    rewrite !(proj2 (Rltb_false _ _)) by lra.
    rewrite !(proj2 (Req_b_true _ _)) by reflexivity.
    unfold hits_player. cbn [en_x en_y en_size]. rewrite Hp.
    apply IZR_lt in Hsz.
    rewrite andb_true_4, !Rltb_true. lra. }
  subst g2. unfold PursuitEnemy_update in *. cbn [fst snd] in *.
  unfold check_hit. rewrite Hhit.
  unfold game_over_lose, create_text, stop.
  cbn [is_running canvas_texts set_canvas_texts set_is_running].
  split; [reflexivity |]. rewrite T1, <- app_assoc. reflexivity.
Qed.

Lemma win_and_lose_in_one_frame_witness :
  let g := player_at session0 700 250 in
  let e := mkPursuit (mkEnemy 700 250 10 "yellow") 1 in
  canvas_texts (snd (PursuitEnemy_update e (Player_update g)))
  = canvas_texts g ++ ["You Win"; "You Lose"]%string.
Proof.
  intros g e.
  refine (proj2 (win_and_lose_in_one_frame g e eq_refl _ _ _ _)).
  - unfold Home_contains, g. player_pos. rewrite andb_true_4, !Rleb_true. lra.
  - unfold g. player_pos. reflexivity.
  - unfold g. player_pos. reflexivity.
  - simpl. lia.
Defined.

(** ** Further properties: pursuit, patrol and trapped minions *)

Lemma chase_step (d : Z) (n : nat) :
  (let o := chase d n in
   if o >? 0 then o - 1 else if o =? 0 then 0 else o + 1)%Z = chase d (S n).
Proof.
  unfold chase. cbv zeta.
  set (m := Z.max (Z.abs d - Z.of_nat n) 0).
  set (m' := Z.max (Z.abs d - Z.of_nat (S n)) 0).
  assert (Hm : (m' = Z.max (m - 1) 0 /\ 0 <= m)%Z) by (unfold m, m'; lia).
  destruct Hm as [-> Hm]. clearbody m.
  destruct (Z.sgn_spec d) as [[Hd ->] | [[Hd ->] | [Hd ->]]];
    repeat match goal with
           | |- context [if ?c then _ else _] => destruct c eqn:?
           end; lia.
Qed.

(** One update of a pursuer whose step is 1, at an integer offset. *)
Lemma PursuitEnemy_update_unit_step (e : PursuitEnemy) g (ox oy : Z) :
  Zfloor (pursuit_speed e + 1 / 100) = 1%Z ->
  en_x e = Player_x (player g) + IZR ox ->
  en_y e = Player_y (player g) + IZR oy ->
  let e' := fst (PursuitEnemy_update e g) in
  en_x e' = Player_x (player g)
            + IZR (if ox >? 0 then ox - 1 else if ox =? 0 then 0 else ox + 1)%Z /\
  en_y e' = Player_y (player g)
            + IZR (if oy >? 0 then oy - 1 else if oy =? 0 then 0 else oy + 1)%Z /\
  pursuit_speed e' = pursuit_speed e + 1 / 100 /\
  en_size e' = en_size e.
Proof.
  intros Hf Hx Hy e'. subst e'. unfold PursuitEnemy_update.
  cbn [fst en_x en_y en_size pursuit_base pursuit_speed]. rewrite Hf, Hx, Hy.
  unfold Rgtb.
  assert (A : forall p o,
             (if Rltb p (p + IZR o) then p + IZR o - 1
              else if Req_b (p + IZR o) p then p + IZR o else p + IZR o + 1)
             = p + IZR (if o >? 0 then o - 1
                        else if o =? 0 then 0 else o + 1)%Z).
  { intros p o. destruct (Z.gtb_spec o 0) as [G | G].
    - apply IZR_lt in G. rewrite (proj2 (Rltb_true _ _)) by lra.
      rewrite minus_IZR. lra.
    - apply IZR_le in G. rewrite (proj2 (Rltb_false _ _)) by lra.
      destruct (Z.eqb_spec o 0) as [-> | N].
      + rewrite (proj2 (Req_b_true _ _)) by lra. reflexivity.
      + assert (IZR o <> 0) by (intros E; apply N, eq_IZR; exact E).
        destruct (Req_b (p + IZR o) p) eqn:E;
          [apply Req_b_true in E; lra | rewrite plus_IZR; lra]. }
  rewrite !A. repeat split.
Qed.

Lemma pursuit_run_player n e g : player (snd (pursuit_run n e g)) = player g.
Proof.
  induction n as [| n IH]; [reflexivity |].
  cbn [pursuit_run]. unfold PursuitEnemy_update, check_hit. cbn [snd].
  destruct (hits_player _ _); exact IH.
Qed.

Lemma pursuit_run_closed_form (n : nat) (e : PursuitEnemy) g (dx dy : Z) :
  pursuit_speed e = 1 ->
  en_x e = Player_x (player g) + IZR dx ->
  en_y e = Player_y (player g) + IZR dy ->
  (n <= 99)%nat ->
  let e' := fst (pursuit_run n e g) in
  en_x e' = Player_x (player g) + IZR (chase dx n) /\
  en_y e' = Player_y (player g) + IZR (chase dy n) /\
  pursuit_speed e' = 1 + INR n / 100 /\
  en_size e' = en_size e.
Proof.
  intros Hs Hx Hy. induction n as [| n IH]; intros Hn e'.
  - subst e'. cbn [pursuit_run fst INR]. unfold chase.
    rewrite !Z.sub_0_r.
    replace (Z.sgn dx * Z.max (Z.abs dx) 0)%Z with dx by lia.
    replace (Z.sgn dy * Z.max (Z.abs dy) 0)%Z with dy by lia.
    repeat split; try assumption. lra.
  - destruct (IH ltac:(lia)) as (Ix & Iy & Is & Iz).
    subst e'. cbn [pursuit_run].
    set (e1 := fst (pursuit_run n e g)) in *.
    set (g1 := snd (pursuit_run n e g)) in *.
    assert (Hp : player g1 = player g) by apply pursuit_run_player.
    assert (Hf : Zfloor (pursuit_speed e1 + 1 / 100) = 1%Z).
    { apply Zfloor_eq. rewrite Is.
      pose proof (pos_INR n) as P0.
      assert (INR n <= 98) by (apply le_INR in Hn; rewrite S_INR in Hn;
        change 99%nat with (98 + 1)%nat in Hn; rewrite plus_INR in Hn;
        rewrite !INR_IZR_INZ in *; simpl in Hn; lra).
      lra. }
    rewrite <- Hp in Ix, Iy.
    destruct (PursuitEnemy_update_unit_step e1 g1 _ _ Hf Ix Iy)
      as (Ux & Uy & Us & Uz).
    rewrite Ux, Uy, Us, Uz, Is, Iz, Hp, !chase_step, S_INR.
    repeat split. lra.
Qed.

(** X7. A pursuer with speed 1 at integer offsets [(dx, dy)] of a player
    who stands still closes in by one unit per axis and per update, and stays
    on a coordinate once it has reached it: during the first 99 updates
    (while the growing speed still floors to 1) its offset after [n] updates
    is [chase d n] on each axis.  From the update that brings it onto the
    player on both axes, a pursuer of positive size has lost the game. *)
Theorem pursuer_catches_standing_player (n : nat) (e : PursuitEnemy)
    (g : TurtleAdventureGame) (dx dy : Z) :
  pursuit_speed e = 1 ->
  en_x e = Player_x (player g) + IZR dx ->
  en_y e = Player_y (player g) + IZR dy ->
  (n <= 99)%nat ->
  let e' := fst (pursuit_run n e g) in
  let g' := snd (pursuit_run n e g) in
  player g' = player g /\
  en_x e' = Player_x (player g) + IZR (chase dx n) /\
  en_y e' = Player_y (player g) + IZR (chase dy n) /\
  ((Z.abs dx <= Z.of_nat n)%Z -> en_x e' = Player_x (player g)) /\
  ((Z.abs dy <= Z.of_nat n)%Z -> en_y e' = Player_y (player g)) /\
  ((Z.abs dx <= Z.of_nat n)%Z -> (Z.abs dy <= Z.of_nat n)%Z ->
   (1 <= n)%nat -> (0 < en_size e)%Z -> is_running g' = false).
Proof.
  intros Hs Hx Hy Hn e' g'.
  destruct (pursuit_run_closed_form n e g dx dy Hs Hx Hy Hn)
    as (Cx & Cy & _ & Cz). fold e' in Cx, Cy, Cz.
  split; [apply pursuit_run_player |]. split; [exact Cx |].
  split; [exact Cy |].
  assert (Zx : (Z.abs dx <= Z.of_nat n)%Z -> chase dx n = 0%Z)
    by (intros H; unfold chase; lia).
  assert (Zy : (Z.abs dy <= Z.of_nat n)%Z -> chase dy n = 0%Z)
    by (intros H; unfold chase; lia).
  split; [intros H; rewrite Cx, (Zx H); lra |].
  split; [intros H; rewrite Cy, (Zy H); lra |].
  intros Ax Ay H1 Hsz.
  destruct n as [| m]; [lia |].
  subst g'. cbn [pursuit_run]. unfold PursuitEnemy_update at 1.
  cbn [snd]. unfold check_hit.
  set (e1 := fst (pursuit_run m e g)) in *.
  set (g1 := snd (pursuit_run m e g)) in *.
  assert (Hp : player g1 = player g) by apply pursuit_run_player.
  assert (Hhit : hits_player (fst (PursuitEnemy_update e1 g1)) g1 = true).
  { change (fst (PursuitEnemy_update e1 g1)) with e'.
    unfold hits_player. rewrite Hp, Cx, Cy, Cz, (Zx Ax), (Zy Ay).
    apply IZR_lt in Hsz. rewrite andb_true_4, !Rltb_true. lra. }
  unfold PursuitEnemy_update in Hhit. cbn [fst] in Hhit. rewrite Hhit.
  reflexivity.
Qed.

(** A fresh pursuer 30 right of and 40 below the player of the reference
    session is on the player after 40 updates, and the session is lost. *)
Lemma pursuer_catches_standing_player_witness :
  let e := mkPursuit (mkEnemy 80 290 10 "yellow") 1 in
  is_running (snd (pursuit_run 40 e (start session0))) = false.
Proof.
  intros e.
  refine (proj2 (proj2 (proj2 (proj2 (proj2
            (pursuer_catches_standing_player 40 e (start session0) 30 40
               eq_refl _ _ _))))) _ _ _ _).
  - unfold start. player_pos. lra.
  - unfold start. player_pos. lra.
  - lia.
  - lia.
  - lia.
  - lia.
  - simpl. lia.
Defined.

(** Every phase reached from the constructor's state is reached within the
    first 276 updates. *)
Lemma phase_run_reduce (n : nat) :
  exists m, (m < 276)%nat /\ phase_run n phase0 = phase_run m phase0.
Proof.
  induction n as [n IH] using lt_wf_ind.
  destruct (Nat.lt_ge_cases n 276) as [H | H].
  - exists n. split; [exact H | reflexivity].
  - destruct (IH (n - 136)%nat ltac:(lia)) as (m & Hm & E).
    exists m. split; [exact Hm |]. rewrite <- E.
    replace n with (n - 136 + 136)%nat at 1 by lia.
    apply phase_run_period. lia.
Qed.

Lemma phase_run_forall (P : PatrolPhase -> bool) :
  forallb (fun k => P (phase_run k phase0)) (seq 0 276) = true ->
  forall n, P (phase_run n phase0) = true.
Proof.
  intros H n. destruct (phase_run_reduce n) as (m & Hm & ->).
  rewrite forallb_forall in H. apply (H m). apply in_seq. lia.
Qed.

Lemma phase_run_in_square n : in_square (phase_run n phase0) = true.
Proof. apply phase_run_forall. vm_compute. reflexivity. Qed.

Lemma phase_run_on_track n : on_track (phase_run n phase0) = true.
Proof. apply phase_run_forall. vm_compute. reflexivity. Qed.

(** X8. A patrol enemy never leaves its track: after any number of updates
    from the constructor's state it is within the square from 3 below to 102
    above its start on both axes, and on one of the six lines (offset -3, 0
    or 102 on x or on y) the track is made of. *)
Theorem patrol_stays_in_its_square (game : TurtleAdventureGame) (size : Z)
    (color : string) (n : nat) :
  let e0 := AroundHomeEnemy_init game size color in
  let e := patrol_run n e0 game in
  (en_x e0 - 3 <= en_x e <= en_x e0 + 102) /\
  (en_y e0 - 3 <= en_y e <= en_y e0 + 102) /\
  (en_x e = en_x e0 - 3 \/ en_x e = en_x e0 \/ en_x e = en_x e0 + 102 \/
   en_y e = en_y e0 - 3 \/ en_y e = en_y e0 \/ en_y e = en_y e0 + 102).
Proof.
  intros e0 e.
  destruct (patrol_position n game size color) as [Hx Hy].
  fold e0 in Hx, Hy. fold e in Hx, Hy. rewrite Hx, Hy.
  pose proof (phase_run_in_square n) as S.
  pose proof (phase_run_on_track n) as T.
  unfold in_square in S. unfold on_track in T.
  rewrite !andb_true_iff, !Z.leb_le in S.
  rewrite !orb_true_iff, !Z.eqb_eq in T.
  destruct S as [[[S1 S2] S3] S4].
  apply IZR_le in S1, S2, S3, S4.
  split; [lra |]. split; [lra |].
  destruct T as [[[[[T | T] | T] | T] | T] | T]; rewrite T; lra.
Qed.

Lemma AroundHomeEnemy_update_size (self : AroundHomeEnemy) g :
  en_size (fst (AroundHomeEnemy_update self g)) = en_size self.
Proof.
  unfold AroundHomeEnemy_update. cbn [fst].
  repeat match goal with
         | |- context [if ?c then _ else _] => destruct c
         end; reflexivity.
Qed.

(** X9. The patrol never catches a player at home.  If the patroller's
    size and the home's size add up to at most 100, then a patroller created
    for the game, after any number of updates, does not hit a player that is
    inside the home. *)
Theorem patrol_never_hits_player_at_home (game game' : TurtleAdventureGame)
    (size : Z) (color : string) (n : nat) :
  (size + home_size (home game) <= 100)%Z ->
  Home_contains (home game) (Player_x (player game')) (Player_y (player game'))
    = true ->
  hits_player (patrol_run n (AroundHomeEnemy_init game size color) game) game'
    = false.
Proof.
  intros Hsz Hc.
  set (e0 := AroundHomeEnemy_init game size color).
  set (e := patrol_run n e0 game).
  destruct (patrol_position n game size color) as [Hx Hy].
  fold e0 in Hx, Hy. fold e in Hx, Hy.
  assert (Hz : en_size e = size).
  { subst e. clear. induction n as [| n IH]; [reflexivity |].
    cbn [patrol_run]. rewrite AroundHomeEnemy_update_size. exact IH. }
  change (en_x e0) with (home_x (home game) - 50) in Hx.
  change (en_y e0) with (home_y (home game) - 50) in Hy.
  unfold Home_contains in Hc. cbv zeta in Hc.
  rewrite andb_true_4, !Rleb_true in Hc.
  apply not_true_is_false. unfold hits_player.
  change (en_x (around_base e)) with (en_x e).
  change (en_y (around_base e)) with (en_y e).
  rewrite andb_true_4, !Rltb_true, Hx, Hy, Hz.
  pose proof (phase_run_on_track n) as T. unfold on_track in T.
  rewrite !orb_true_iff, !Z.eqb_eq in T.
  apply IZR_le in Hsz. rewrite plus_IZR in Hsz.
  destruct T as [[[[[T | T] | T] | T] | T] | T]; rewrite T; lra.
Qed.

(** The patroller of the reference session (size 25, home of size 20) and a
    player on home's centre, after 1000 updates. *)
Lemma patrol_never_hits_player_at_home_witness :
  hits_player (patrol_run 1000 patrol0 session0) (player_at session0 700 250)
  = false.
Proof.
  apply (patrol_never_hits_player_at_home session0 (player_at session0 700 250)
           25 "blue" 1000).
  - simpl. lia.
  - unfold Home_contains. player_pos. rewrite andb_true_4, !Rleb_true. lra.
Defined.

(** ** A minion beyond the right bound *)

Lemma DiagonalMinionEnemy_update_bounce_x (m : DiagonalMinionEnemy) g :
  let m' := fst (DiagonalMinionEnemy_update m g) in
  x_bound (en_x m') = true -> y_bound (en_y m') = false ->
  diagonal_speed m' = - (diagonal_speed m + 4 / 10).
Proof.
  intros m' Hx Hy. subst m'.
  rewrite DiagonalMinionEnemy_update_speed, bounce_xorb.
  fold (fst (DiagonalMinionEnemy_update m g)). rewrite Hx, Hy. reflexivity.
Qed.

(** X10. A diagonal minion beyond an x bound is held there.  If two
    successive updates both end beyond an x bound (and within the y bounds),
    the speed is negated twice and is back at its value, the increments
    cancel, and the minion has drifted by 0.4 per axis in its direction of
    travel over these two updates; the third update continues the drift. *)
Theorem minion_trapped_beyond_bound (m : DiagonalMinionEnemy)
    (g1 g2 g3 : TurtleAdventureGame) :
  let m1 := fst (DiagonalMinionEnemy_update m g1) in
  let m2 := fst (DiagonalMinionEnemy_update m1 g2) in
  let m3 := fst (DiagonalMinionEnemy_update m2 g3) in
  let dx := if String.eqb (choosing2 m) "Right" then 4 / 10 else - (4 / 10) in
  let dy := if String.eqb (choosing1 m) "Up" then 4 / 10 else - (4 / 10) in
  x_bound (en_x m1) = true -> y_bound (en_y m1) = false ->
  x_bound (en_x m2) = true -> y_bound (en_y m2) = false ->
  diagonal_speed m2 = diagonal_speed m /\
  en_x m2 = en_x m + dx /\ en_y m2 = en_y m + dy /\
  en_x m3 = en_x m1 + dx /\ en_y m3 = en_y m1 + dy.
Proof.
  intros m1 m2 m3 dx dy X1 Y1 X2 Y2.
  pose proof (DiagonalMinionEnemy_update_bounce_x m g1 X1 Y1) as S1.
  pose proof (DiagonalMinionEnemy_update_bounce_x m1 g2 X2 Y2) as S2.
  fold m1 in S1. fold m2 in S2.
  destruct (DiagonalMinionEnemy_update_pos m g1) as (Px1 & Py1 & C1 & C2).
  destruct (DiagonalMinionEnemy_update_pos m1 g2) as (Px2 & Py2 & C3 & C4).
  destruct (DiagonalMinionEnemy_update_pos m2 g3) as (Px3 & Py3 & _ & _).
  fold m1 in Px1, Py1, C1, C2, Px2, Py2, C3, C4.
  fold m2 in Px2, Py2, C3, C4, Px3, Py3. fold m3 in Px3, Py3.
  rewrite C3, C1 in Py3. rewrite C4, C2 in Px3.
  rewrite C1 in Py2. rewrite C2 in Px2.
  rewrite S2 in Px3, Py3. rewrite S1 in Px2, Py2, Px3, Py3, S2.
  subst dx dy.
  destruct (String.eqb (choosing2 m) "Right"),
           (String.eqb (choosing1 m) "Up");
    repeat split; lra.
Qed.

(** The minion of the reference run: from (799.8, 250) at speed 2 it is
    back at speed 2 two updates later, 0.4 further right. *)
Lemma minion_trapped_beyond_bound_witness :
  let g := player_at session0 50 250 in
  diagonal_speed
    (fst (DiagonalMinionEnemy_update
            (fst (DiagonalMinionEnemy_update minion0 g)) g))
  = diagonal_speed minion0.
Proof.
  intros g. destruct minion0_run as [(X1 & Y1 & _) (X2 & Y2 & _)].
  fold g in X1, Y1, X2, Y2.
  refine (proj1 (minion_trapped_beyond_bound minion0 g g g _ _ _ _)).
  - rewrite X1. apply x_bound_true. lra.
  - rewrite Y1. apply not_true_is_false. rewrite y_bound_true. lra.
  - rewrite X2. apply x_bound_true. lra.
  - rewrite Y2. apply not_true_is_false. rewrite y_bound_true. lra.
Defined.

(** ** Further properties: the random walker *)

Lemma Zfloor_Zceil_le (a b : R) : a <= b -> (Zfloor a <= Zceil b)%Z.
Proof.
  intros H. apply le_IZR.
  pose proof (Zfloor_bound a) as [Ha _].
  pose proof (Zceil_bound b) as [_ Hb]. lra.
Qed.

(** One draw of a coordinate of the random walker: the range is never
    empty when the speed is not negative. *)
Lemma wp_shaking_axis (v speed hi : R) (Q : Z -> World -> Prop) (w : World) :
  0 <= speed ->
  (forall z : Z,
     (Rgeb v 0 && Rleb v hi = true ->
      (Zfloor (v - speed) <= z <= Zceil (v + speed))%Z) ->
     (Rgeb v 0 && Rleb v hi = false -> Rleb v 0 = true ->
      (Zfloor v <= z <= Zceil (v + speed))%Z) ->
     (Rgeb v 0 && Rleb v hi = false -> Rleb v 0 = false ->
      (Zfloor (v - speed) <= z <= Zceil v)%Z) ->
     Q z (advance w)) ->
  wp (if Rgeb v 0 && Rleb v hi
      then randint (Zfloor (v - speed)) (Zceil (v + speed))
      else if Rleb v 0
      then randint (Zfloor v) (Zceil (v + speed))
      else randint (Zfloor (v - speed)) (Zceil v)) Q w.
Proof.
  intros Hs H.
  destruct (Rgeb v 0 && Rleb v hi) eqn:E1; [| destruct (Rleb v 0) eqn:E2].
  - apply wp_randint; [apply Zfloor_Zceil_le; lra |].
    intros z Hz. apply H; intros; try discriminate; assumption.
  - apply wp_randint; [apply Zfloor_Zceil_le; lra |].
    intros z Hz. apply H; intros; try discriminate; assumption.
  - apply wp_randint; [apply Zfloor_Zceil_le; lra |].
    intros z Hz. apply H; intros; try discriminate; assumption.
Qed.

(** The nine branches of [ShakingEnemy_update] draw the two coordinates
    independently. *)
Lemma ShakingEnemy_update_axes (self : ShakingEnemy) (w : World) :
  ShakingEnemy_update self w =
  (let speed := shaking_speed self + 1 / 100 in
   let x := en_x self in
   let y := en_y self in
   x' <- (if Rgeb x 0 && Rleb x 800
          then randint (Zfloor (x - speed)) (Zceil (x + speed))
          else if Rleb x 0
          then randint (Zfloor x) (Zceil (x + speed))
          else randint (Zfloor (x - speed)) (Zceil x)) ;;
   y' <- (if Rgeb y 0 && Rleb y 500
          then randint (Zfloor (y - speed)) (Zceil (y + speed))
          else if Rleb y 0
          then randint (Zfloor y) (Zceil (y + speed))
          else randint (Zfloor (y - speed)) (Zceil y)) ;;
   let self' :=
     mkShaking
       (mkEnemy (IZR x') (IZR y') (en_size self) (en_color self)) speed in
   modify_game (check_hit self') ;;
   ret self') w.
Proof.
  unfold ShakingEnemy_update. cbv zeta.
  destruct (Rgeb (en_x self) 0 && Rleb (en_x self) 800);
    [| destruct (Rleb (en_x self) 0)];
    (destruct (Rgeb (en_y self) 0 && Rleb (en_y self) 500);
     [| destruct (Rleb (en_y self) 0)]);
    unfold bind;
    repeat match goal with
           | |- context [match randint ?a ?b ?v with _ => _ end] =>
               destruct (randint a b v) as [[? ?] |]
           end; reflexivity.
Qed.



Lemma inside_true (v hi : R) : Rgeb v 0 && Rleb v hi = true <-> 0 <= v <= hi.
Proof. unfold Rgeb. rewrite andb_true_iff, !Rleb_true. tauto. Qed.

Lemma ShakingEnemy_update_spec (self : ShakingEnemy) (w : World) :
  0 <= shaking_speed self + 1 / 100 ->
  exists zx zy : Z,
    let speed := shaking_speed self + 1 / 100 in
    let self' :=
      mkShaking (mkEnemy (IZR zx) (IZR zy) (en_size self) (en_color self))
        speed in
    ShakingEnemy_update self w =
      Some (self',
            mkWorld (check_hit self' (game w))
              (mkRandom (draws (random w)) (S (S (cursor (random w)))))) /\
    drawn_around (en_x self) 800 speed zx /\
    drawn_around (en_y self) 500 speed zy.
Proof.
  intros Hs. rewrite ShakingEnemy_update_axes. cbv zeta.
  set (speed := shaking_speed self + 1 / 100) in *.
  assert (A : forall v hi z,
             0 <= hi ->
             (Rgeb v 0 && Rleb v hi = true ->
              (Zfloor (v - speed) <= z <= Zceil (v + speed))%Z) ->
             (Rgeb v 0 && Rleb v hi = false -> Rleb v 0 = true ->
              (Zfloor v <= z <= Zceil (v + speed))%Z) ->
             (Rgeb v 0 && Rleb v hi = false -> Rleb v 0 = false ->
              (Zfloor (v - speed) <= z <= Zceil v)%Z) ->
             drawn_around v hi speed z).
  { intros v hi z Hhi H1 H2 H3. unfold drawn_around.
    split; [| split]; intros H.
    - apply H1, inside_true, H.
    - apply H2; [| apply Rleb_true; lra].
      apply not_true_is_false. rewrite inside_true. lra.
    - apply H3; [| apply Rleb_false; lra ].
      apply not_true_is_false. rewrite inside_true. lra. }
  match goal with
  | |- exists zx zy, ?m w = Some (@?a zx zy, @?w' zx zy) /\ @?P zx zy =>
      cut (wp m (fun r w1 => exists zx zy,
                   r = a zx zy /\ w1 = w' zx zy /\ P zx zy) w)
  end.
  { intros (r & w1 & Hrun & zx & zy & -> & -> & HP).
    exists zx, zy. split; [exact Hrun | exact HP]. }
  apply wp_bind, wp_shaking_axis; [exact Hs |]. intros zx X1 X2 X3.
  apply wp_bind, wp_shaking_axis; [exact Hs |]. intros zy Y1 Y2 Y3.
  apply wp_bind, wp_modify_game, wp_ret.
  exists zx, zy. split; [reflexivity |]. split; [reflexivity |].
  split; apply A; solve [assumption | lra].
Qed.

Lemma drawn_around_close (v hi speed : R) (z : Z) :
  0 <= speed -> 0 <= hi -> drawn_around v hi speed z ->
  v - speed - 1 < IZR z < v + speed + 1 /\
  (v < 0 -> v - 1 < IZR z) /\ (hi < v -> IZR z < v + 1).
Proof.
  intros Hs Hhi (H1 & H2 & H3).
  pose proof (Zfloor_bound (v - speed)) as [_ F1].
  pose proof (Zceil_bound (v + speed)) as [C1 _].
  pose proof (Zfloor_bound v) as [_ F2].
  pose proof (Zceil_bound v) as [C2 _].
  assert (B : forall a b : Z, (a <= z <= b)%Z -> IZR a <= IZR z <= IZR b)
    by (intros a b [Ha Hb]; split; apply IZR_le; assumption).
  destruct (Rlt_le_dec v 0) as [L | L]; [| destruct (Rlt_le_dec hi v) as [G | G]].
  - pose proof (B _ _ (H2 L)) as Hz. repeat split; intros; lra.
  - pose proof (B _ _ (H3 G)) as Hz. repeat split; intros; lra.
  - assert (I : 0 <= v <= hi) by lra. pose proof (B _ _ (H1 I)) as Hz.
    repeat split; intros; lra.
Qed.

(** X11. One [ShakingEnemy.update] of a walker whose speed after the
    increment is not negative returns without raising: it draws two values,
    moves to integer coordinates less than [speed + 1] from the old ones on
    each axis, does not move further out on an axis on which it is outside
    the world (less than 1 in that direction), adds 0.01 to the speed, keeps
    size and colour, and signals a loss if it hits the player. *)
Theorem ShakingEnemy_update_stays_close (self : ShakingEnemy) (w : World) :
  0 <= shaking_speed self + 1 / 100 ->
  exists (self' : ShakingEnemy) (w' : World) (zx zy : Z),
    ShakingEnemy_update self w = Some (self', w') /\
    en_x self' = IZR zx /\ en_y self' = IZR zy /\
    shaking_speed self' = shaking_speed self + 1 / 100 /\
    en_size self' = en_size self /\ en_color self' = en_color self /\
    Rabs (en_x self' - en_x self) < shaking_speed self' + 1 /\
    Rabs (en_y self' - en_y self) < shaking_speed self' + 1 /\
    (en_x self < 0 -> en_x self - 1 < en_x self') /\
    (800 < en_x self -> en_x self' < en_x self + 1) /\
    (en_y self < 0 -> en_y self - 1 < en_y self') /\
    (500 < en_y self -> en_y self' < en_y self + 1) /\
    game w' = check_hit self' (game w) /\
    random w' = mkRandom (draws (random w)) (2 + cursor (random w)).
Proof.
  intros Hs.
  destruct (ShakingEnemy_update_spec self w Hs) as (zx & zy & Hrun & Dx & Dy).
  cbv zeta in Hrun, Dx, Dy.
  apply drawn_around_close in Dx; [| exact Hs | lra].
  apply drawn_around_close in Dy; [| exact Hs | lra].
  destruct Dx as (Bx & Lx & Gx). destruct Dy as (By & Ly & Gy).
  eexists _, _, zx, zy. split; [exact Hrun |].
  cbn [en_x en_y en_size en_color shaking_base shaking_speed game random].
  repeat split; try assumption; try (apply Rabs_def1; lra).
Qed.

(** A walker as [create_enemy] builds it, in the world of the reference
    session. *)
Lemma ShakingEnemy_update_stays_close_witness :
  exists (self' : ShakingEnemy) (w' : World),
    ShakingEnemy_update (ShakingEnemy_init 20 "red") world0 = Some (self', w') /\
    shaking_speed self' = 25 / 10 + 1 / 100.
Proof.
  destruct (ShakingEnemy_update_stays_close (ShakingEnemy_init 20 "red") world0)
    as (self' & w' & zx & zy & Hrun & _ & _ & Hs & _).
  - simpl. lra.
  - exists self', w'. split; [exact Hrun | exact Hs].
Defined.

(** X12. A walker stays within reach of the world: integer coordinates no
    further than [speed + 1] outside [0, 800] x [0, 500] and a speed that is
    not negative are kept by [ShakingEnemy.update], which then never raises.
    [create_enemy] builds its walkers in this state. *)
Theorem ShakingEnemy_update_within_reach (self : ShakingEnemy) (w : World) :
  within_reach self ->
  exists (self' : ShakingEnemy) (w' : World),
    ShakingEnemy_update self w = Some (self', w') /\ within_reach self'.
Proof.
  intros ((ix & iy & Ex & Ey) & Hs & Bx & By).
  assert (Hs' : 0 <= shaking_speed self + 1 / 100) by lra.
  destruct (ShakingEnemy_update_spec self w Hs') as (zx & zy & Hrun & Dx & Dy).
  cbv zeta in Hrun, Dx, Dy.
  eexists _, _. split; [exact Hrun |].
  unfold within_reach.
  cbn [en_x en_y shaking_base shaking_speed].
  split; [exists zx, zy; split; reflexivity |]. split; [exact Hs' |].
  assert (K : forall v hi (iv z : Z),
             v = IZR iv -> 0 <= hi ->
             - (shaking_speed self + 1) <= v <= hi + (shaking_speed self + 1) ->
             drawn_around v hi (shaking_speed self + 1 / 100) z ->
             - (shaking_speed self + 1 / 100 + 1) <= IZR z
             <= hi + (shaking_speed self + 1 / 100 + 1)).
  { intros v hi iv z E Hhi B D.
    pose proof (drawn_around_close v hi _ z Hs' Hhi D) as (C & _ & _).
    destruct D as (D1 & D2 & D3).
    assert (Fv : Zfloor v = iv) by (rewrite E; apply ZfloorZ).
    assert (Cv : Zceil v = iv)
      by (rewrite E; unfold Zceil; rewrite <- opp_IZR, ZfloorZ; lia).
    destruct (Rlt_le_dec v 0) as [L | L];
      [| destruct (Rlt_le_dec hi v) as [G | G]].
    - destruct (D2 L) as [Lo _]. rewrite Fv in Lo. apply IZR_le in Lo.
      rewrite <- E in Lo. lra.
    - destruct (D3 G) as [_ Hi]. rewrite Cv in Hi. apply IZR_le in Hi.
      rewrite <- E in Hi. lra.
    - lra. }
  split.
  - apply (K (en_x self) 800 ix zx Ex); [lra | exact Bx | exact Dx].
  - apply (K (en_y self) 500 iy zy Ey); [lra | exact By | exact Dy].
Qed.

Lemma ShakingEnemy_update_within_reach_witness :
  exists (self' : ShakingEnemy) (w' : World),
    ShakingEnemy_update (mkShaking (mkEnemy 0 500 20 "red") (25 / 10)) world0
      = Some (self', w') /\
    within_reach self'.
Proof.
  apply ShakingEnemy_update_within_reach.
  unfold within_reach. cbn [en_x en_y shaking_base shaking_speed].
  split; [exists 0%Z, 500%Z; split; reflexivity |]. lra.
Defined.

(** ** Further properties: frames and sessions *)

Lemma same_cast_refl g : same_cast g g.
Proof. repeat split. Qed.

Lemma same_cast_trans g1 g2 g3 :
  same_cast g1 g2 -> same_cast g2 g3 -> same_cast g1 g3.
Proof.
  intros (A1 & A2 & A3 & A4 & A5 & A6) (B1 & B2 & B3 & B4 & B5 & B6).
  repeat split; congruence.
Qed.

Lemma same_cast_length g g' :
  same_cast g g' -> List.length (heap g') = List.length (heap g).
Proof.
  intros (_ & _ & _ & _ & _ & H).
  apply (f_equal (@List.length _)) in H. now rewrite !length_map in H.
Qed.

Lemma list_update_length {A} (l : list A) i f :
  List.length (list_update l i f) = List.length l.
Proof.
  revert i. induction l as [| a l IH]; intros [| i]; cbn; auto.
Qed.

Lemma list_update_map {A B} (g : A -> B) (l : list A) i (a b : A) :
  nth_error l i = Some a -> g b = g a ->
  map g (list_update l i (fun _ => b)) = map g l.
Proof.
  revert i. induction l as [| c l IH]; intros [| i] H E; cbn in *;
    try discriminate.
  - injection H as ->. now rewrite E.
  - now rewrite (IH i H E).
Qed.

Lemma list_update_Forall {A} (P : A -> Prop) (l : list A) i (b : A) :
  Forall P l -> P b -> Forall P (list_update l i (fun _ => b)).
Proof.
  intros H Hb. revert i. induction H as [| c l Hc H IH]; intros [| i]; cbn;
    constructor; auto.
Qed.

Lemma check_hit_cases (b : Enemy) g :
  check_hit b g = g \/ check_hit b g = game_over_lose g.
Proof. unfold check_hit. destruct (hits_player b g); auto. Qed.

(** The game after an object's update has signalled and the object has been
    written back. *)
Lemma written_back (g : TurtleAdventureGame) (b : Enemy) (r : EnemyRef)
    (o o' : EnemyObj) :
  sound_game g -> nth_error (heap g) r = Some o ->
  class_of o' = class_of o -> sound_object o' ->
  let g' :=
    set_heap (check_hit b g)
      (list_update (heap (check_hit b g)) r (fun _ => o')) in
  same_cast g g' /\ sound_game g'.
Proof.
  intros [Hf Hr] Hn Hc Hs g'.
  assert (Hh : heap (check_hit b g) = heap g)
    by (destruct (check_hit_cases b g) as [-> | ->]; reflexivity).
  subst g'. rewrite Hh.
  split.
  - unfold same_cast.
    destruct (check_hit_cases b g) as [-> | ->];
      cbn [elements enemies timers now home heap set_heap game_over_lose
             create_text stop set_is_running set_canvas_texts];
      repeat split; apply (list_update_map class_of _ _ o o'); assumption.
  - split.
    + cbn [heap set_heap]. apply list_update_Forall; assumption.
    + intros r' Hin. cbn [heap set_heap]. rewrite list_update_length.
      apply Hr.
      destruct (check_hit_cases b g) as [E | E]; rewrite E in Hin;
        exact Hin.
Qed.

Lemma Player_update_same_cast g :
  same_cast g (Player_update g) /\ heap (Player_update g) = heap g.
Proof.
  unfold same_cast, Player_update.
  destruct (Home_contains _ _ _);
    cbn [waypoint game_over_win create_text stop set_is_running
           set_canvas_texts];
    destruct (Waypoint_is_active (waypoint g));
    try destruct (Rltb _ _); repeat split.
Qed.

(** One element's update in a sound game. *)
Lemma update_element_sound (e : ElementRef) (w : World) :
  sound_game (game w) -> In e (elements (game w)) ->
  exists w',
    update_element e w = Some (tt, w') /\
    same_cast (game w) (game w') /\ sound_game (game w') /\
    draws (random w') = draws (random w).
Proof.
  intros Hs Hin. destruct w as [g rs]. cbn [game random] in *.
  destruct e as [| | | r].
  - eexists. split; [reflexivity |]. cbn [game random].
    split; [apply same_cast_refl |]. split; [exact Hs | reflexivity].
  - eexists. split; [reflexivity |]. cbn [game random].
    split; [apply same_cast_refl |]. split; [exact Hs | reflexivity].
  - eexists. split; [reflexivity |]. cbn [game random].
    destruct (Player_update_same_cast g) as [Hc Hh].
    split; [exact Hc |]. split; [| reflexivity].
    destruct Hs as [Hf Hr]. destruct Hc as (He & _). split.
    + rewrite Hh. exact Hf.
    + intros r Hr'. rewrite Hh. apply Hr. rewrite <- He. exact Hr'.
  - pose proof (proj2 Hs r Hin) as Hlt.
    destruct (nth_error (heap g) r) as [o |] eqn:Hn;
      [| apply nth_error_None in Hn; lia].
    pose proof (proj1 (Forall_forall _ _) (proj1 Hs) o (nth_error_In _ _ Hn))
      as Ho.
    unfold update_element, bind at 1, deref, bind at 1, get_game.
    cbn [game]. rewrite Hn. cbn [ret].
    destruct o as [s | p | a | s | d | s].
    + cbn [sound_object] in Ho.
      destruct (ShakingEnemy_update_spec s (mkWorld g rs)) as
        (zx & zy & Hrun & _); [lra |].
      cbv zeta in Hrun. unfold bind. rewrite Hrun. unfold store, modify_game.
      cbn [game random]. eexists. split; [reflexivity |]. cbn [game random draws].
      split; [| split; [| reflexivity]];
        eapply written_back; eauto; cbn [sound_object shaking_speed]; lra.
    + unfold bind, get_game, put_game, store, modify_game. cbn [game random].
      eexists. split; [reflexivity |]. cbn [game random].
      unfold PursuitEnemy_update. cbn [fst snd].
      split; [| split; [| reflexivity]];
        eapply written_back; eauto; exact I.
    + unfold bind, get_game, put_game, store, modify_game. cbn [game random].
      eexists. split; [reflexivity |]. cbn [game random].
      unfold AroundHomeEnemy_update. cbn [fst snd].
      split; [| split; [| reflexivity]];
        eapply written_back; eauto; exact I.
    + unfold bind, get_game, put_game, store, modify_game. cbn [game random].
      eexists. split; [reflexivity |]. cbn [game random].
      unfold SummonEnemy_update. cbn [fst snd].
      split; [| split; [| reflexivity]];
        eapply written_back; eauto; exact I.
    + unfold bind, get_game, put_game, store, modify_game. cbn [game random].
      eexists. split; [reflexivity |]. cbn [game random].
      unfold DiagonalMinionEnemy_update. cbn [fst snd].
      split; [| split; [| reflexivity]];
        eapply written_back; eauto; exact I.
    + unfold bind, get_game, put_game, store, modify_game. cbn [game random].
      eexists. split; [reflexivity |]. cbn [game random].
      unfold StraightMinionEnemy_update. cbn [fst snd].
      split; [| split; [| reflexivity]];
        eapply written_back; eauto; exact I.
Qed.



Lemma for_each_update_sound (l : list ElementRef) : forall w : World,
  sound_game (game w) ->
  (forall e, In e l -> In e (elements (game w))) ->
  exists w',
    for_each l update_element w = Some (tt, w') /\
    same_cast (game w) (game w') /\ sound_game (game w') /\
    draws (random w') = draws (random w).
Proof.
  induction l as [| a l IH]; intros w Hs Hl.
  - exists w. split; [reflexivity |].
    split; [apply same_cast_refl |]. split; [exact Hs | reflexivity].
  - destruct (update_element_sound a w Hs (Hl a (or_introl eq_refl)))
      as (w1 & Hrun1 & Hc1 & Hs1 & Hd1).
    destruct (IH w1 Hs1) as (w' & Hrun & Hc & Hs' & Hd).
    { intros e He. destruct Hc1 as (-> & _). apply Hl. right. exact He. }
    exists w'. cbn [for_each]. unfold bind. rewrite Hrun1.
    split; [exact Hrun |]. split; [eapply same_cast_trans; eassumption |].
    split; [exact Hs' | congruence].
Qed.

(** A frame, as the session needs it. *)
Lemma tick_sound (w : World) :
  sound_game (game w) ->
  exists w',
    tick w = Some (tt, w') /\
    same_cast (game w) (game w') /\ sound_game (game w') /\
    draws (random w') = draws (random w).
Proof.
  intros Hs. unfold tick, bind, get_game.
  destruct (is_running (game w)).
  - apply (for_each_update_sound (elements (game w)) w Hs (fun e H => H)).
  - exists w. split; [reflexivity |]. split; [apply same_cast_refl |].
    split; [exact Hs | reflexivity].
Qed.

(** X13. One frame keeps the cast.  In a game whose container only refers
    to objects that exist and whose walkers have speeds that are not
    negative, [tick] returns without raising; it leaves the container, the
    enemy list, the timers, the clock and the home as they were, every object
    in its class at its reference, the game sound, and the random sequence
    untouched; a game that is not running is left exactly as it is. *)
Theorem tick_keeps_the_cast (w : World) :
  sound_game (game w) ->
  exists w',
    tick w = Some (tt, w') /\
    same_cast (game w) (game w') /\ sound_game (game w') /\
    draws (random w') = draws (random w) /\
    (is_running (game w) = false -> w' = w).
Proof.
  intros Hs. unfold tick, bind, get_game.
  destruct (is_running (game w)) eqn:R.
  - destruct (for_each_update_sound (elements (game w)) w Hs (fun e H => H))
      as (w' & Hrun & Hc & Hs' & Hd).
    exists w'. split; [exact Hrun |]. split; [exact Hc |].
    split; [exact Hs' |]. split; [exact Hd |]. intros H. discriminate H.
  - exists w. split; [reflexivity |]. split; [apply same_cast_refl |].
    split; [exact Hs |]. split; reflexivity.
Qed.

(** The reference session, started, is in [world1] after its first firing:
    sixteen enemies, one of them a random walker.  The frame that follows
    updates the three first elements and each of the sixteen enemies. *)
Lemma tick_keeps_the_cast_witness :
  fire_timer (mkWorld (start session0) (random world0)) = Some (tt, world1) /\
  is_running (game world1) = true /\
  map class_of (heap (game world1)) = firing_classes /\
  exists w',
    tick world1 = Some (tt, w') /\ same_cast (game world1) (game w').
Proof.
  assert (Hh : heap (game world1) = firing0) by (vm_compute; reflexivity).
  assert (He : elements (game world1)
               = [RWaypoint; RHome; RPlayer] ++ map REnemy (seq 0 16))
    by (vm_compute; reflexivity).
  split; [vm_compute; reflexivity |]. split; [vm_compute; reflexivity |].
  split; [vm_compute; reflexivity |].
  destruct (tick_keeps_the_cast world1) as (w' & Hrun & Hc & _).
  - split.
    + rewrite Hh. unfold firing0. cbn [app List.concat repeat].
      constructor; [cbn [sound_object shaking_speed]; lra |].
      repeat (constructor; [exact I |]). constructor.
    + intros r Hin. rewrite Hh. rewrite He in Hin.
      cbn [app In] in Hin.
      destruct Hin as [H | [H | [H | Hin]]];
        [discriminate H | discriminate H | discriminate H |].
      apply in_map_iff in Hin. destruct Hin as (i & E & Hi).
      injection E as <-. apply in_seq in Hi.
      change (List.length firing0) with 16%nat. lia.
  - exists w'. split; [exact Hrun | exact Hc].
Defined.

Lemma minion_pairs_classes k x y s l :
  minion_pairs k x y s l ->
  map class_of l = List.concat (repeat [CDiagonal; CStraight] k) /\
  Forall sound_object l.
Proof.
  revert l. induction k as [| k IH]; intros l H.
  - cbn in H. subst l. split; [reflexivity | constructor].
  - destruct H as (dm & sm & l' & -> & _ & _ & H').
    destruct (IH l' H') as [E F]. cbn [map class_of repeat List.concat app].
    rewrite E. split; [reflexivity |].
    constructor; [exact I |]. constructor; [exact I | exact F].
Qed.

Lemma concat_repeat_snoc {A} (a : list A) k :
  List.concat (repeat a k) ++ a = List.concat (repeat a (S k)).
Proof.
  induction k as [| k IH]; cbn [repeat List.concat].
  - now rewrite app_nil_r.
  - rewrite <- app_assoc, IH. reflexivity.
Qed.

Lemma concat_repeat_length {A} (a : list A) k :
  List.length (List.concat (repeat a k)) = (List.length a * k)%nat.
Proof.
  induction k as [| k IH]; cbn [repeat List.concat List.length]; [lia |].
  rewrite length_app, IH. lia.
Qed.

Lemma after_firings_length k g :
  after_firings k g -> List.length (heap g) = (16 * k)%nat.
Proof.
  intros (_ & _ & H & _).
  apply (f_equal (@List.length _)) in H.
  rewrite length_map, concat_repeat_length in H. exact H.
Qed.

Lemma init_after_firings sw sh lvl g :
  TurtleAdventureGame_init sw sh lvl = Some g -> after_firings 0 g.
Proof.
  intros Hg.
  destruct (Z.eq_dec sw 1) as [Hw | Hw];
    [rewrite TurtleAdventureGame_init_raises in Hg by (left; exact Hw);
     discriminate Hg |].
  destruct (Z.eq_dec sh 1) as [Hh | Hh];
    [rewrite TurtleAdventureGame_init_raises in Hg by (right; exact Hh);
     discriminate Hg |].
  destruct (TurtleAdventureGame_init_returns sw sh lvl Hw Hh)
    as (g' & Hg' & He & Hp & Hen & _ & _ & _ & _ & _ & _ & _ & Ht).
  rewrite Hg in Hg'. injection Hg' as <-.
  unfold after_firings, sound_game. rewrite He, Hp, Hen, Ht.
  split; [split; [constructor |] |].
  - intros r [H | [H | [H | []]]]; discriminate H.
  - repeat split. exists 100%Z. reflexivity.
Qed.

Lemma fired_fields (g : TurtleAdventureGame) (t : Z) (news : list EnemyObj) :
  let g' := after (spawn (set_now (set_timers g []) t) news) 3000 CreateEnemy in
  heap g' = heap g ++ news /\
  elements g'
    = elements g
      ++ map REnemy (seq (List.length (heap g)) (List.length news)) /\
  enemies g' = enemies g /\
  timers g' = [((t + 3000)%Z, CreateEnemy)].
Proof. repeat split. Qed.

Lemma fire_timer_after_firings k (w : World) :
  after_firings k (game w) ->
  exists w',
    fire_timer w = Some (tt, w') /\ after_firings (S k) (game w') /\
    draws (random w') = draws (random w).
Proof.
  intros Ha. pose proof (after_firings_length k _ Ha) as Hlen.
  destruct Ha as ((Hf & Hr) & He & Hc & Hen & t & Ht).
  destruct w as [g rs]. cbn [game random] in *.
  unfold fire_timer, bind, get_game. cbn [game]. rewrite Ht.
  unfold put_game. cbn [random run_callback].
  destruct (create_enemy_spec (mkWorld (set_now (set_timers g []) t) rs))
    as (r & p & a & s & sx & sy & l & Hrun & Hfi).
  rewrite Hrun. eexists. split; [reflexivity |]. cbn [game random draws].
  split; [| reflexivity].
  destruct Hfi as (_ & _ & _ & Hsp & _ & _ & _ & _ & _ & _ & _ & _ & _ & Hl).
  destruct (minion_pairs_classes _ _ _ _ _ Hl) as [Hcl Hso].
  apply minion_pairs_count in Hl. destruct Hl as (L & _).
  set (news := OShaking r :: OPursuit p :: OAroundHome a :: OSummon s :: l).
  assert (Ln : List.length news = 16%nat)
    by (unfold news; cbn [List.length]; rewrite L; reflexivity).
  destruct (fired_fields g t news) as (Fh & Fe & Fen & Ft).
  set (g' := after (spawn (set_now (set_timers g []) t) news) 3000 CreateEnemy)
    in *.
  clearbody g'. rewrite Ln, Hlen in Fe.
  assert (Hel : elements g'
                = [RWaypoint; RHome; RPlayer]
                  ++ map REnemy (seq 0 (16 * S k))).
  { rewrite Fe, He. replace (16 * S k)%nat with (16 * k + 16)%nat by lia.
    rewrite seq_app, map_app, <- app_assoc. reflexivity. }
  unfold after_firings, sound_game. rewrite Fh, Fen, Ft, Hel.
  split; [split |].
  - apply Forall_app. split; [exact Hf |]. unfold news.
    constructor; [cbn; rewrite Hsp; lra |].
    constructor; [exact I |]. constructor; [exact I |].
    constructor; [exact I | exact Hso].
  - intros r' Hin. rewrite length_app, Ln, Hlen.
    cbn [app In] in Hin.
    destruct Hin as [H | [H | [H | Hin]]];
      [discriminate H | discriminate H | discriminate H |].
    apply in_map_iff in Hin. destruct Hin as (i & E & Hi).
    injection E as <-. apply in_seq in Hi. lia.
  - split; [reflexivity |]. split.
    + rewrite map_app, Hc. unfold news. cbn [map class_of]. rewrite Hcl.
      apply (concat_repeat_snoc firing_classes k).
    + split; [exact Hen |]. eexists. reflexivity.
Qed.

Lemma same_cast_after_firings k g g' :
  after_firings k g -> same_cast g g' -> sound_game g' -> after_firings k g'.
Proof.
  intros (_ & He & Hc & Hen & t & Ht) (E1 & E2 & E3 & _ & _ & E6) Hs.
  split; [exact Hs |]. rewrite E1, E2, E3, E6.
  repeat split; try assumption. exists t. exact Ht.
Qed.

Lemma run_event_after_firings (ev : Event) k (w : World) :
  after_firings k (game w) ->
  exists w',
    run_event ev w = Some (tt, w') /\
    after_firings
      (match ev with Timer => S k | _ => k end) (game w') /\
    draws (random w') = draws (random w).
Proof.
  intros Ha. destruct ev as [| | x y |]; cbn [run_event].
  - destruct (tick_sound w (proj1 Ha)) as (w' & Hrun & Hc & Hs & Hd).
    exists w'. split; [exact Hrun |]. split; [| exact Hd].
    eapply same_cast_after_firings; eassumption.
  - apply fire_timer_after_firings. exact Ha.
  - eexists. split; [reflexivity |]. split; [| reflexivity].
    destruct w as [g rs]. exact Ha.
  - eexists. split; [reflexivity |]. split; [| reflexivity].
    destruct w as [g rs]. exact Ha.
Qed.

(** X14. A session never raises.  From [init_game], any sequence of
    frames, timer deliveries, clicks and starts runs to its end; after [k]
    timer deliveries the container holds the three first elements and the
    [16 * k] enemies in creation order, each firing's classes in the order
    of [create_enemy], the enemy list of the game is still empty, and exactly
    one timer is pending. *)
Theorem session_never_raises (evs : list Event) : forall (k : nat) (w : World),
  after_firings k (game w) ->
  exists w',
    for_each evs run_event w = Some (tt, w') /\
    after_firings (k + timer_count evs) (game w') /\
    draws (random w') = draws (random w).
Proof.
  induction evs as [| ev evs IH]; intros k w Ha.
  - exists w. split; [reflexivity |]. rewrite Nat.add_0_r.
    split; [exact Ha | reflexivity].
  - destruct (run_event_after_firings ev k w Ha) as (w1 & Hrun1 & Ha1 & Hd1).
    destruct (IH _ w1 Ha1) as (w' & Hrun & Ha' & Hd).
    exists w'. cbn [for_each]. unfold bind. rewrite Hrun1.
    split; [exact Hrun |]. split; [| congruence].
    unfold timer_count in *. cbn [filter].
    destruct ev; cbn [List.length] in *;
      try exact Ha'.
    replace (k + S (List.length
                      (filter (fun ev => match ev with
                                         | Timer => true
                                         | _ => false
                                         end) evs)))%nat
      with (S k + List.length
                    (filter (fun ev => match ev with
                                       | Timer => true
                                       | _ => false
                                       end) evs))%nat by lia.
    exact Ha'.
Qed.

(** The reference session, started, with two firings among frames and a
    click: 32 enemies at the end. *)
Lemma session_never_raises_witness :
  exists w',
    for_each [Start; Tick; Timer; Tick; Click 780 250; Tick; Timer; Tick]
      run_event world0 = Some (tt, w') /\
    List.length (heap (game w')) = 32%nat.
Proof.
  destruct (session_never_raises
              [Start; Tick; Timer; Tick; Click 780 250; Tick; Timer; Tick]
              0 world0
              (init_after_firings 800 500 1 session0 session0_constructed))
    as (w' & Hrun & Ha & _).
  exists w'. split; [exact Hrun |].
  apply (after_firings_length 2 _ Ha).
Defined.

(** ** Further properties: minions and summoners over many frames *)

Lemma diagonal_run_step n m g :
  let m1 := fst (diagonal_run n m g) in
  let m' := fst (diagonal_run (S n) m g) in
  choosing1 m' = choosing1 m1 /\ choosing2 m' = choosing2 m1 /\
  en_y m' - en_y m1 = diagonal_slope m1 * (en_x m' - en_x m1).
Proof.
  intros m1 m'. subst m'. cbn [diagonal_run]. fold m1.
  destruct (DiagonalMinionEnemy_update_pos m1 (snd (diagonal_run n m g)))
    as (Hx & Hy & H1 & H2).
  split; [exact H1 |]. split; [exact H2 |].
  rewrite Hx, Hy. unfold diagonal_slope.
  destruct (String.eqb (choosing1 m1) "Up"),
           (String.eqb (choosing2 m1) "Right"); cbn [Bool.eqb]; lra.
Qed.

(** X15. A diagonal minion never leaves its diagonal.  Each update moves
    both coordinates by the same speed and a bounce negates that one speed,
    so after any number of updates, bounces included, the minion is on the
    line of slope 1 or -1 through its start that its two directions select,
    and the directions are the ones it was created with. *)
Theorem diagonal_minion_keeps_its_diagonal (n : nat) (m : DiagonalMinionEnemy)
    (g : TurtleAdventureGame) :
  let m' := fst (diagonal_run n m g) in
  choosing1 m' = choosing1 m /\ choosing2 m' = choosing2 m /\
  en_y m' - en_y m = diagonal_slope m * (en_x m' - en_x m).
Proof.
  induction n as [| n IH]; intros m'.
  - subst m'. cbn [diagonal_run fst]. repeat split. lra.
  - destruct IH as (I1 & I2 & I).
    destruct (diagonal_run_step n m g) as (S1 & S2 & S).
    fold m' in S1, S2, S.
    set (m1 := fst (diagonal_run n m g)) in *.
    assert (E : diagonal_slope m1 = diagonal_slope m)
      by (unfold diagonal_slope; rewrite I1, I2; reflexivity).
    rewrite E in S.
    split; [congruence |]. split; [congruence |]. lra.
Qed.

Lemma StraightMinionEnemy_update_line (m : StraightMinionEnemy) g :
  let m' := fst (StraightMinionEnemy_update m g) in
  choosing m' = choosing m /\
  (if moves_along_x m then en_y m' = en_y m else en_x m' = en_x m) /\
  exists k : Z, (en_x m' - en_x m) + (en_y m' - en_y m) = IZR k.
Proof.
  intros m'. subst m'. unfold StraightMinionEnemy_update, moves_along_x.
  cbn [fst choosing straight_base].
  split; [reflexivity |].
  destruct (String.eqb (choosing m) "Right");
    [| destruct (String.eqb (choosing m) "Left");
       [| destruct (String.eqb (choosing m) "Up")]];
    cbn [orb Enemy_set_x Enemy_set_y en_x en_y]; (split; [reflexivity |]).
  - exists (Zfloor (straight_speed m + 4 / 10)). lra.
  - exists (- Zfloor (straight_speed m + 4 / 10))%Z. rewrite opp_IZR. lra.
  - exists (Zfloor (straight_speed m + 4 / 10)). lra.
  - exists (- Zfloor (straight_speed m + 4 / 10))%Z. rewrite opp_IZR. lra.
Qed.

(** X16. A straight minion never leaves its line.  After any number of
    updates its direction is unchanged, the coordinate across its direction
    is the one it started with ("Right" and "Left" move along x, every other
    direction along y), and it has moved by a whole number of units. *)
Theorem straight_minion_keeps_its_line (n : nat) (m : StraightMinionEnemy)
    (g : TurtleAdventureGame) :
  let m' := fst (straight_run n m g) in
  choosing m' = choosing m /\
  (if moves_along_x m then en_y m' = en_y m else en_x m' = en_x m) /\
  exists k : Z, (en_x m' - en_x m) + (en_y m' - en_y m) = IZR k.
Proof.
  induction n as [| n IH]; intros m'.
  - subst m'. cbn [straight_run fst]. split; [reflexivity |].
    split; [destruct (moves_along_x m); reflexivity |].
    exists 0%Z. lra.
  - destruct IH as (I1 & I2 & k & Ik).
    subst m'. cbn [straight_run].
    set (m1 := fst (straight_run n m g)) in *.
    destruct (StraightMinionEnemy_update_line m1 (snd (straight_run n m g)))
      as (S1 & S2 & j & Sj).
    assert (E : moves_along_x m1 = moves_along_x m)
      by (unfold moves_along_x; rewrite I1; reflexivity).
    rewrite E in S2.
    split; [congruence |]. split.
    + destruct (moves_along_x m); congruence.
    + exists (k + j)%Z. rewrite plus_IZR. lra.
Qed.

Lemma dither_step (d : Z) (n : nat) :
  (let o := dither d n in if 0 <=? o then o - 1 else o + 1)%Z
  = dither d (S n).
Proof.
  unfold dither. cbv zeta.
  rewrite Nat2Z.inj_succ.
  set (k := Z.of_nat n). assert (Hk : (0 <= k)%Z) by (unfold k; lia).
  clearbody k.
  destruct (Z.leb_spec k (Z.abs d)) as [L | L];
    destruct (Z.leb_spec (Z.succ k) (Z.abs d)) as [L' | L']; try lia.
  - destruct (Z.leb_spec 0 (d - Z.sgn d * k)); lia.
  - assert (E : Z.abs d = k) by lia.
    replace (Z.succ k - Z.abs d)%Z with 1%Z by lia.
    change (1 mod 2)%Z with 1%Z.
    destruct (Z.leb_spec 0 (d - Z.sgn d * k)); lia.
  - replace (Z.succ k - Z.abs d)%Z with (k - Z.abs d + 1)%Z by lia.
    set (j := (k - Z.abs d)%Z). assert (Hj : (0 < j)%Z) by (unfold j; lia).
    clearbody j.
    pose proof (Z.mod_pos_bound j 2 ltac:(lia)) as B1.
    pose proof (Z.mod_pos_bound (j + 1) 2 ltac:(lia)) as B2.
    pose proof (Z.div_mod j 2 ltac:(lia)) as D1.
    pose proof (Z.div_mod (j + 1) 2 ltac:(lia)) as D2.
    destruct (Z.leb_spec 0 (- (j mod 2))); lia.
Qed.

(** One update of a summoner whose step is 1, at an integer offset. *)
Lemma SummonEnemy_update_unit_step (s : SummonEnemy) g (ox oy : Z) :
  summon_speed s = 1 ->
  en_x s = Player_x (player g) + IZR ox ->
  en_y s = Player_y (player g) + IZR oy ->
  let s' := fst (SummonEnemy_update s g) in
  en_x s' = Player_x (player g)
            + IZR (if 0 <=? ox then ox - 1 else ox + 1)%Z /\
  en_y s' = Player_y (player g)
            + IZR (if 0 <=? oy then oy - 1 else oy + 1)%Z /\
  summon_speed s' = 1 /\ en_size s' = en_size s.
Proof.
  intros Hs Hx Hy s'. subst s'. unfold SummonEnemy_update.
  cbn [fst en_x en_y en_size summon_base summon_speed].
  rewrite Hs, (ZfloorZ 1), Hx, Hy. unfold Rgeb.
  assert (A : forall p o,
             (if Rleb p (p + IZR o) then p + IZR o - 1
              else if Req_b (p + IZR o) p then p + IZR o else p + IZR o + 1)
             = p + IZR (if 0 <=? o then o - 1 else o + 1)%Z).
  { intros p o. destruct (Z.leb_spec 0 o) as [G | G].
    - apply IZR_le in G. rewrite (proj2 (Rleb_true _ _)) by lra.
      rewrite minus_IZR. lra.
    - apply IZR_lt in G. rewrite (proj2 (Rleb_false _ _)) by lra.
      destruct (Req_b (p + IZR o) p) eqn:E;
        [apply Req_b_true in E; lra | rewrite plus_IZR; lra]. }
  rewrite !A. repeat split.
Qed.

Lemma summon_run_player n s g : player (snd (summon_run n s g)) = player g.
Proof.
  induction n as [| n IH]; [reflexivity |].
  cbn [summon_run]. unfold SummonEnemy_update, check_hit. cbn [snd].
  destruct (hits_player _ _); exact IH.
Qed.

Lemma summon_run_closed_form (n : nat) (s : SummonEnemy) g (dx dy : Z) :
  summon_speed s = 1 ->
  en_x s = Player_x (player g) + IZR dx ->
  en_y s = Player_y (player g) + IZR dy ->
  let s' := fst (summon_run n s g) in
  en_x s' = Player_x (player g) + IZR (dither dx n) /\
  en_y s' = Player_y (player g) + IZR (dither dy n) /\
  summon_speed s' = 1 /\ en_size s' = en_size s.
Proof.
  intros Hs Hx Hy. induction n as [| n IH]; intros s'.
  - subst s'. cbn [summon_run fst]. unfold dither.
    change (Z.of_nat 0) with 0%Z.
    destruct (Z.leb_spec 0 (Z.abs dx)); [| lia].
    destruct (Z.leb_spec 0 (Z.abs dy)); [| lia].
    rewrite !Z.mul_0_r, !Z.sub_0_r. repeat split; assumption.
  - destruct IH as (Ix & Iy & Is & Iz).
    subst s'. cbn [summon_run].
    set (s1 := fst (summon_run n s g)) in *.
    set (g1 := snd (summon_run n s g)) in *.
    assert (Hp : player g1 = player g) by apply summon_run_player.
    rewrite <- Hp in Ix, Iy.
    destruct (SummonEnemy_update_unit_step s1 g1 _ _ Is Ix Iy)
      as (Ux & Uy & Us & Uz).
    rewrite Ux, Uy, Us, Uz, Iz, Hp, !dither_step.
    repeat split.
Qed.

Lemma dither_close (d : Z) (n : nat) :
  (Z.abs d <= Z.of_nat n)%Z -> (-1 <= dither d n <= 0)%Z.
Proof.
  intros H. unfold dither.
  destruct (Z.leb_spec (Z.of_nat n) (Z.abs d)) as [L | L]; [lia |].
  pose proof (Z.mod_pos_bound (Z.of_nat n - Z.abs d) 2 ltac:(lia)). lia.
Qed.

Lemma dither_moves (d : Z) (n : nat) :
  Z.abs (dither d (S n) - dither d n) = 1%Z.
Proof.
  rewrite <- dither_step. cbv zeta.
  destruct (Z.leb_spec 0 (dither d n)); lia.
Qed.

(** X17. A summoner never rests on the player.  With speed 1 at integer
    offsets of a player who stands still it moves by exactly 1 on each axis
    at every update; it closes in until it is on the player's coordinate and
    from then on alternates between that coordinate and 1 below it.  From the
    update that brings both axes there, a summoner of size above 2 has lost
    the game. *)
Theorem summoner_dithers_at_standing_player (n : nat) (s : SummonEnemy)
    (g : TurtleAdventureGame) (dx dy : Z) :
  summon_speed s = 1 ->
  en_x s = Player_x (player g) + IZR dx ->
  en_y s = Player_y (player g) + IZR dy ->
  let s' := fst (summon_run n s g) in
  let g' := snd (summon_run n s g) in
  let s'' := fst (summon_run (S n) s g) in
  player g' = player g /\
  en_x s' = Player_x (player g) + IZR (dither dx n) /\
  en_y s' = Player_y (player g) + IZR (dither dy n) /\
  Rabs (en_x s'' - en_x s') = 1 /\ Rabs (en_y s'' - en_y s') = 1 /\
  ((Z.abs dx <= Z.of_nat n)%Z ->
   Player_x (player g) - 1 <= en_x s' <= Player_x (player g)) /\
  ((Z.abs dy <= Z.of_nat n)%Z ->
   Player_y (player g) - 1 <= en_y s' <= Player_y (player g)) /\
  ((Z.abs dx <= Z.of_nat n)%Z -> (Z.abs dy <= Z.of_nat n)%Z ->
   (1 <= n)%nat -> (2 < en_size s)%Z -> is_running g' = false).
Proof.
  intros Hs Hx Hy s' g' s''.
  destruct (summon_run_closed_form n s g dx dy Hs Hx Hy)
    as (Cx & Cy & _ & Cz). fold s' in Cx, Cy, Cz.
  destruct (summon_run_closed_form (S n) s g dx dy Hs Hx Hy)
    as (Nx & Ny & _). fold s'' in Nx, Ny.
  assert (M : forall d, Rabs (IZR (dither d (S n)) - IZR (dither d n)) = 1).
  { intros d. rewrite <- minus_IZR, <- abs_IZR, dither_moves. reflexivity. }
  assert (B : forall d, (Z.abs d <= Z.of_nat n)%Z ->
                        -1 <= IZR (dither d n) <= 0).
  { intros d H. destruct (dither_close d n H) as [L U].
    apply IZR_le in L, U. lra. }
  split; [apply summon_run_player |]. split; [exact Cx |].
  split; [exact Cy |].
  split; [rewrite Nx, Cx, <- (M dx); f_equal; lra |].
  split; [rewrite Ny, Cy, <- (M dy); f_equal; lra |].
  split; [intros H; rewrite Cx; pose proof (B dx H); lra |].
  split; [intros H; rewrite Cy; pose proof (B dy H); lra |].
  intros Ax Ay H1 Hsz.
  destruct n as [| m]; [lia |].
  subst g'. cbn [summon_run]. unfold SummonEnemy_update at 1.
  cbn [snd]. unfold check_hit.
  set (s1 := fst (summon_run m s g)) in *.
  set (g1 := snd (summon_run m s g)) in *.
  assert (Hp : player g1 = player g) by apply summon_run_player.
  assert (Hhit : hits_player (fst (SummonEnemy_update s1 g1)) g1 = true).
  { change (fst (SummonEnemy_update s1 g1)) with s'.
    unfold hits_player. rewrite Hp, Cx, Cy, Cz.
    pose proof (B dx Ax). pose proof (B dy Ay).
    assert (3 <= IZR (en_size s)) by (apply IZR_le; lia).
    rewrite andb_true_4, !Rltb_true. lra. }
  unfold SummonEnemy_update in Hhit. cbn [fst] in Hhit. rewrite Hhit.
  reflexivity.
Qed.

(** A summoner as [create_enemy] builds it, 30 right of and 40 above the
    player of the reference session: on the player's column and row after 40
    updates, where the session is lost. *)
Lemma summoner_dithers_at_standing_player_witness :
  let s := mkSummon (mkEnemy 80 210 35 "green") 1 in
  is_running (snd (summon_run 40 s (start session0))) = false.
Proof.
  intros s.
  refine (proj2 (proj2 (proj2 (proj2 (proj2 (proj2 (proj2
            (summoner_dithers_at_standing_player 40 s (start session0) 30 (-40)
               eq_refl _ _))))))) _ _ _ _).
  - unfold start. player_pos. lra.
  - unfold start. player_pos. lra.
  - lia.
  - lia.
  - lia.
  - simpl. lia.
Defined.
